(** * Food-spoilage dashboard: the core of [src/App.tsx]

    A shallow embedding of the logic of the [App] component: the verdict
    classifier [getVerdict], the simulation tick, the rolling history
    buffer, manual injection, the manual-form randomiser, and the life
    cycle of the simulation interval under React's effect rules.

    Numbers.  A JavaScript [number] is embedded as a rational extended
    with [NaN] and the two infinities; the sign of zero is not
    represented.  The operations of module [JS] are the exact ones, and
    the first transcription of the component is written with them: it
    serves the statements about the events, the state and the order of
    the channels, which do not depend on the last bit of a result.
    Module [B64] gives the arithmetic its binary64 rounding (to nearest,
    ties to even, with overflow to the infinities) and transcribes again,
    with the rounded operations, the functions that compute: the
    classifier, the simulation tick, the randomiser and the gauge.  The
    statements about computed values are made on these. *)

From Stdlib Require Import QArith Qround Qabs Qminmax Qpower Lqa ZArith Lia.
From Stdlib Require Import List String Ascii Bool DecimalString.
From Stdlib Require DecimalPos DecimalN Floats.
Import ListNotations.

Local Open Scope Q_scope.

(** ** JavaScript numbers and the built-ins the component calls *)

Module JS.

Inductive number : Type :=
| NaN
| PosInf
| NegInf
| Fin (q : Q).

Definition of_Z (z : Z) : number := Fin (inject_Z z).

Definition neg (x : number) : number :=
  match x with
  | NaN => NaN
  | PosInf => NegInf
  | NegInf => PosInf
  | Fin q => Fin (- q)
  end.

(** [x + y] *)
Definition add (x y : number) : number :=
  match x, y with
  | NaN, _ | _, NaN => NaN
  | PosInf, NegInf | NegInf, PosInf => NaN
  | PosInf, _ | _, PosInf => PosInf
  | NegInf, _ | _, NegInf => NegInf
  | Fin a, Fin b => Fin (a + b)
  end.

(** [x - y] *)
Definition sub (x y : number) : number :=
  match x, y with
  | NaN, _ | _, NaN => NaN
  | PosInf, PosInf | NegInf, NegInf => NaN
  | PosInf, _ | _, NegInf => PosInf
  | NegInf, _ | _, PosInf => NegInf
  | Fin a, Fin b => Fin (a - b)
  end.

(** An infinity of sign [pos] times the finite [q]. *)
Definition inf_times (pos : bool) (q : Q) : number :=
  match q ?= 0 with
  | Eq => NaN
  | Gt => if pos then PosInf else NegInf
  | Lt => if pos then NegInf else PosInf
  end.

(** [x * y] *)
Definition mul (x y : number) : number :=
  match x, y with
  | NaN, _ | _, NaN => NaN
  | PosInf, PosInf | NegInf, NegInf => PosInf
  | PosInf, NegInf | NegInf, PosInf => NegInf
  | PosInf, Fin q | Fin q, PosInf => inf_times true q
  | NegInf, Fin q | Fin q, NegInf => inf_times false q
  | Fin a, Fin b => Fin (a * b)
  end.

Definition Qltb (a b : Q) : bool :=
  match a ?= b with Lt => true | _ => false end.

(** [x < y]; every comparison with [NaN] is false. *)
Definition lt (x y : number) : bool :=
  match x, y with
  | NaN, _ | _, NaN => false
  | _, NegInf => false
  | NegInf, _ => true
  | PosInf, _ => false
  | Fin _, PosInf => true
  | Fin a, Fin b => Qltb a b
  end.

(** [x > y] *)
Definition gt (x y : number) : bool := lt y x.

(** [Math.min(x, y)] and [Math.max(x, y)]: [NaN] as soon as one argument
    is [NaN]. *)
Definition Math_min (x y : number) : number :=
  match x, y with
  | NaN, _ | _, NaN => NaN
  | _, _ => if lt y x then y else x
  end.

Definition Math_max (x y : number) : number :=
  match x, y with
  | NaN, _ | _, NaN => NaN
  | _, _ => if lt x y then y else x
  end.

(** [Math.floor(x)] *)
Definition Math_floor (x : number) : number :=
  match x with
  | Fin q => of_Z (Qfloor q)
  | _ => x
  end.

(** ToBoolean on a number: [NaN] and zero are falsy. *)
Definition truthy (x : number) : bool :=
  match x with
  | NaN => false
  | Fin q => negb (Qeq_bool q 0)
  | _ => true
  end.

(** [x || y] on numbers. *)
Definition or_else (x y : number) : number := if truthy x then x else y.

Definition is_NaN (x : number) : bool :=
  match x with NaN => true | _ => false end.

Declare Scope js_scope.
Delimit Scope js_scope with js.
Bind Scope js_scope with number.
Infix "+" := add : js_scope.
Infix "-" := sub : js_scope.
Infix "*" := mul : js_scope.
Infix "<" := lt : js_scope.
Infix ">" := gt : js_scope.
Infix "||" := or_else : js_scope.

(** *** Number.prototype.toFixed *)

(** The decimal digits of a non-negative integer, ["0"] for zero. *)
Definition digits (n : Z) : string :=
  NilEmpty.string_of_uint (N.to_uint (Z.to_N n)).

Fixpoint zeros (k : nat) : string :=
  match k with
  | O => EmptyString
  | S k' => String "0" (zeros k')
  end.

(** The integer [n] for which [n / 10^f - x] is closest to zero, the
    larger one on a tie ([x] non-negative). *)
Definition nearest_scaled (f : nat) (x : Q) : Z :=
  Qfloor (x * inject_Z (10 ^ Z.of_nat f) + (1 # 2)).

(** Steps 11.b to 11.c of toFixed: pad the digits of [n] to at least
    [f + 1] characters and put the point before the last [f]. *)
Definition place_point (f : nat) (m : string) : string :=
  match f with
  | O => m
  | _ =>
    let k := String.length m in
    let m' := if (k <=? f)%nat then (zeros (f + 1 - k) ++ m)%string else m in
    let k' := String.length m' in
    (substring 0 (k' - f) m' ++ "." ++ substring (k' - f) f m')%string
  end.

Section ToFixed.

(** Number::toString on a finite value of magnitude at least [10^21]:
    its digits are the shortest ones that identify the binary64 value,
    which the rational embedding does not represent. *)
Variable toString_large : Q -> string.

(** [x.toFixed(f)] for [0 <= f <= 100]. *)
Definition toFixed (x : number) (f : nat) : string :=
  match x with
  | NaN => "NaN"
  | PosInf => "Infinity"
  | NegInf => "-Infinity"
  | Fin q =>
    let s := if Qltb q 0 then "-"%string else ""%string in
    let a := Qabs q in
    if Qle_bool (inject_Z (10 ^ 21)) a
    then (s ++ toString_large a)%string
    else (s ++ place_point f (digits (nearest_scaled f a)))%string
  end.

End ToFixed.

(** *** StringToNumber

    Strings are sequences of 8-bit code units; the white space of the
    grammar is then TAB, LF, VT, FF, CR, SP and NBSP. *)

Definition is_ws (c : ascii) : bool :=
  let n := nat_of_ascii c in
  ((9 <=? n) && (n <=? 13) || (n =? 32) || (n =? 160))%nat.

Fixpoint trim_left (s : list ascii) : list ascii :=
  match s with
  | c :: s' => if is_ws c then trim_left s' else s
  | [] => []
  end.

Definition trim (s : list ascii) : list ascii :=
  rev (trim_left (rev (trim_left s))).

(** The value of [c] as a digit in [base], letters in either case. *)
Definition digit_of (base : Z) (c : ascii) : option Z :=
  let n := Z.of_nat (nat_of_ascii c) in
  let v := if (48 <=? n)%Z && (n <=? 57)%Z then Some (n - 48)%Z
           else if (97 <=? n)%Z && (n <=? 102)%Z then Some (n - 87)%Z
           else if (65 <=? n)%Z && (n <=? 70)%Z then Some (n - 55)%Z
           else None in
  match v with
  | Some d => if (d <? base)%Z then Some d else None
  | None => None
  end.

(** Reads the longest prefix of digits: the value accumulated on [acc],
    the number of digits read on top of [count], and the rest. *)
Fixpoint read_digits (base : Z) (s : list ascii) (acc : Z) (count : nat)
  : Z * nat * list ascii :=
  match s with
  | c :: s' =>
    match digit_of base c with
    | Some d => read_digits base s' (acc * base + d)%Z (S count)
    | None => (acc, count, s)
    end
  | [] => (acc, count, [])
  end.

(** NonDecimalIntegerLiteral: [0x], [0o] or [0b] and at least one digit. *)
Definition non_decimal (s : list ascii) : option number :=
  match s with
  | "0"%char :: p :: rest =>
    let base :=
      match p with
      | "x"%char | "X"%char => Some 16%Z
      | "o"%char | "O"%char => Some 8%Z
      | "b"%char | "B"%char => Some 2%Z
      | _ => None
      end in
    match base with
    | Some b =>
      match read_digits b rest 0 0 with
      | (v, S _, []) => Some (of_Z v)
      | _ => Some NaN
      end
    | None => None
    end
  | _ => None
  end.

Definition sign_of (s : list ascii) : bool * list ascii :=
  match s with
  | "+"%char :: r => (false, r)
  | "-"%char :: r => (true, r)
  | _ => (false, s)
  end.

(** ExponentPart_opt up to the end of the string. *)
Definition exponent (s : list ascii) : option Z :=
  match s with
  | [] => Some 0%Z
  | c :: r =>
    if (Ascii.eqb c "e" || Ascii.eqb c "E")%bool then
      let (minus, r') := sign_of r in
      match read_digits 10 r' 0 0 with
      | (v, S _, []) => Some (if minus then - v else v)%Z
      | _ => None
      end
    else None
  end.

(** [m * 10^k] *)
Definition scale (m k : Z) : Q :=
  if (0 <=? k)%Z then inject_Z (m * 10 ^ k)
  else Qred (m # Z.to_pos (10 ^ (- k))).

(** StrUnsignedDecimalLiteral *)
Definition unsigned_decimal (s : list ascii) : number :=
  if String.eqb (string_of_list_ascii s) "Infinity" then PosInf
  else
    let '(i, ni, r1) := read_digits 10 s 0 0 in
    let '(m, nf, r2) :=
      match r1 with
      | "."%char :: r => read_digits 10 r i 0
      | _ => (i, O, r1)
      end in
    if (ni + nf =? 0)%nat then NaN
    else
      match exponent r2 with
      | Some e => Fin (scale m (e - Z.of_nat nf))
      | None => NaN
      end.

Definition StringToNumber (str : string) : number :=
  match trim (list_ascii_of_string str) with
  | [] => Fin 0
  | t =>
    match non_decimal t with
    | Some v => v
    | None =>
      let (minus, r) := sign_of t in
      let v := unsigned_decimal r in
      if minus then neg v else v
    end
  end.

(** *** Division and Math.round *)

(** [x / y].  The sign of zero is not represented: a zero divisor acts as
    the positive zero. *)
Definition div (x y : number) : number :=
  match x, y with
  | NaN, _ | _, NaN => NaN
  | PosInf, PosInf | PosInf, NegInf | NegInf, PosInf | NegInf, NegInf => NaN
  | PosInf, Fin q => if Qltb q 0 then NegInf else PosInf
  | NegInf, Fin q => if Qltb q 0 then PosInf else NegInf
  | Fin _, PosInf | Fin _, NegInf => Fin 0
  | Fin a, Fin b =>
    match b ?= 0 with
    | Eq =>
      match a ?= 0 with
      | Eq => NaN
      | Gt => PosInf
      | Lt => NegInf
      end
    | _ => Fin (a / b)
    end
  end.

Infix "/" := div : js_scope.

(** [Math.round(x)]: the nearest integer, the larger one on a tie. *)
Definition Math_round (x : number) : number :=
  match x with
  | Fin q => of_Z (Qfloor (q + (1 # 2)))
  | _ => x
  end.

End JS.

Import JS.
Local Open Scope string_scope.

(** ** Data types of the component *)

Record SensorData : Type := mkSensorData {
  mq3 : number;
  mq4 : number;
  mq8 : number;
  mq135 : number
}.

(** [HistoryData extends SensorData]: the four channels and a time. *)
Record HistoryData : Type := mkHistoryData {
  time : string;
  h_mq3 : number;
  h_mq4 : number;
  h_mq8 : number;
  h_mq135 : number
}.

Inductive Status : Type := SPOILED | FRESH.

Record Verdict : Type := mkVerdict {
  status : Status;
  label : string;
  confidence : string;
  details : string
}.

(** A field of the manual form holds [string | number]. *)
Inductive Field : Type :=
| Str (s : string)
| Num (n : number).

Record ManualInputState : Type := mkManualInput {
  in_mq3 : Field;
  in_mq4 : Field;
  in_mq8 : Field;
  in_mq135 : Field
}.

Inductive DataSource : Type := simulation | manual.

(** [Number(v)] on a form field. *)
Definition Number (v : Field) : number :=
  match v with
  | Str s => StringToNumber s
  | Num n => n
  end.

(** ** The verdict classifier *)

Section Classifier.

Variable toString_large : Q -> string.

Definition threshold : number := Fin 300.

Definition getVerdict (data : SensorData) : Verdict :=
  let isSpoiled := (mq3 data > threshold)%js in
  let confidence :=
    if isSpoiled
    then Math_min (Fin 99.9) (Fin 85 + (mq3 data - threshold) * Fin 0.1)%js
    else Math_min (Fin 99.9) (Fin 90 + (threshold - mq3 data) * Fin 0.05)%js in
  {| status := if isSpoiled then SPOILED else FRESH;
     label := if isSpoiled then "BUSUK (Terdeteksi Fermentasi)"
              else "SEGAR (Layak Konsumsi)";
     confidence := toFixed toString_large confidence 2;
     details :=
       if isSpoiled
       then "Kadar alkohol tinggi terdeteksi oleh sensor MQ3, mengindikasikan aktivitas mikroba."
       else "Profil gas dalam batas normal. Tidak ada tanda fermentasi signifikan." |}.

End Classifier.

(** ** Math.random and the simulation tick

    [Math.random()] is an effect: the generator state is the sequence of
    the values it is still to return, each call takes the first. *)

Definition RNG : Type := nat -> Q.

Definition Rand (A : Type) : Type := RNG -> A * RNG.

Definition ret {A : Type} (a : A) : Rand A := fun g => (a, g).

Definition bind {A B : Type} (c : Rand A) (k : A -> Rand B) : Rand B :=
  fun g => let (a, g') := c g in k a g'.

Notation "x <- c ;; k" := (bind c (fun x => k))
  (at level 61, c at next level, right associativity).

Definition Math_random : Rand number :=
  fun g => (Fin (g O), fun n => g (S n)).

(** Every value [Math.random()] returns is in [[0, 1)]. *)
Definition valid (g : RNG) : Prop := forall n, 0 <= g n < 1.

(** The updater passed to [setSensorData] by the interval callback. *)
Definition simulationTick (prev : SensorData) : Rand SensorData :=
  r <- Math_random ;;
  let isSpike := (r > Fin 0.85)%js in
  r <- Math_random ;;
  let changeMQ3 := (r * Fin 40 - Fin 20)%js in
  let changeMQ3 :=
    if isSpike
    then (if (mq3 prev < Fin 200)%js then Fin 150 else Fin (-100))
    else changeMQ3 in
  let newMQ3 := Math_max (Fin 0) (mq3 prev + changeMQ3)%js in
  r <- Math_random ;;
  let newMQ4 := Math_max (Fin 0) (Fin 200 + (r * Fin 20 - Fin 10))%js in
  r <- Math_random ;;
  let newMQ8 := Math_max (Fin 0) (Fin 150 + (r * Fin 15 - Fin 7.5))%js in
  r <- Math_random ;;
  let newMQ135 := Math_max (Fin 0) (Fin 300 + (r * Fin 30 - Fin 15))%js in
  ret {| mq3 := newMQ3; mq4 := newMQ4; mq8 := newMQ8; mq135 := newMQ135 |}.

(** ** The rolling history *)

(** [Array.prototype.shift]: drops the first element. *)
Definition shift {A : Type} (l : list A) : list A := tl l.

(** The updater passed to [setDataHistory], [newEntry] already built. *)
Definition appendHistory (prev : list HistoryData) (newEntry : HistoryData)
  : list HistoryData :=
  let newHistory := (prev ++ [newEntry])%list in
  if (20 <? List.length newHistory)%nat then shift newHistory else newHistory.

(** [{ time: ..., ...sensorData }] *)
Definition entry_of (now : string) (d : SensorData) : HistoryData :=
  {| time := now; h_mq3 := mq3 d; h_mq4 := mq4 d; h_mq8 := mq8 d;
     h_mq135 := mq135 d |}.

(** ** Component state and the event handlers *)

Record State : Type := mkState {
  isConnected : bool;
  selectedPort : string;
  selectedModel : string;
  dataSource : DataSource;
  sensorData : SensorData;
  dataHistory : list HistoryData;
  manualInput : ManualInputState
}.

Definition initialState : State :=
  {| isConnected := false;
     selectedPort := "COM3";
     selectedModel := "random_forest";
     dataSource := simulation;
     sensorData := {| mq3 := Fin 45; mq4 := Fin 200; mq8 := Fin 150;
                      mq135 := Fin 300 |};
     dataHistory := [];
     manualInput := {| in_mq3 := Str ""; in_mq4 := Str ""; in_mq8 := Str "";
                       in_mq135 := Str "" |} |}.

Definition setIsConnected (b : bool) (s : State) : State :=
  mkState b (selectedPort s) (selectedModel s) (dataSource s) (sensorData s)
          (dataHistory s) (manualInput s).

Definition setSelectedPort (p : string) (s : State) : State :=
  mkState (isConnected s) p (selectedModel s) (dataSource s) (sensorData s)
          (dataHistory s) (manualInput s).

Definition setSelectedModel (m : string) (s : State) : State :=
  mkState (isConnected s) (selectedPort s) m (dataSource s) (sensorData s)
          (dataHistory s) (manualInput s).

Definition setDataSource (d : DataSource) (s : State) : State :=
  mkState (isConnected s) (selectedPort s) (selectedModel s) d (sensorData s)
          (dataHistory s) (manualInput s).

Definition setSensorData (d : SensorData) (s : State) : State :=
  mkState (isConnected s) (selectedPort s) (selectedModel s) (dataSource s) d
          (dataHistory s) (manualInput s).

Definition setDataHistory (h : list HistoryData) (s : State) : State :=
  mkState (isConnected s) (selectedPort s) (selectedModel s) (dataSource s)
          (sensorData s) h (manualInput s).

Definition setManualInput (m : ManualInputState) (s : State) : State :=
  mkState (isConnected s) (selectedPort s) (selectedModel s) (dataSource s)
          (sensorData s) (dataHistory s) m.

Definition handleManualInject (s : State) : State :=
  let s := setDataSource manual s in
  let s := setIsConnected false s in
  setSensorData
    {| mq3 := (Number (in_mq3 (manualInput s)) || Fin 0)%js;
       mq4 := (Number (in_mq4 (manualInput s)) || Fin 0)%js;
       mq8 := (Number (in_mq8 (manualInput s)) || Fin 0)%js;
       mq135 := (Number (in_mq135 (manualInput s)) || Fin 0)%js |} s.

Definition generateRandomManual (s : State) : Rand State :=
  r3 <- Math_random ;;
  r4 <- Math_random ;;
  r8 <- Math_random ;;
  r135 <- Math_random ;;
  ret (setManualInput
         {| in_mq3 := Num (Math_floor (r3 * Fin 500)%js);
            in_mq4 := Num (Math_floor (r4 * Fin 400)%js);
            in_mq8 := Num (Math_floor (r8 * Fin 300)%js);
            in_mq135 := Num (Math_floor (r135 * Fin 600)%js) |} s).

(** ** The gauge

    What [GaugeChart] computes from its props: the rotation of the needle
    and of the coloured arc (the [transform] styles are [rotate(<rotation>deg)]),
    the two border colours, and the number shown under the dial. *)

Record GaugeView : Type := mkGaugeView {
  rotation : number;
  borderTopColor : string;
  borderRightColor : string;
  shown : number;
  caption : string
}.

(** The closure [getColor] of a gauge on [value]. *)
Definition getColor (value : number) : string :=
  if (value < Fin 150)%js then "#10B981"
  else if (value < Fin 300)%js then "#F59E0B"
  else "#EF4444".

(** [GaugeChart({ value, max = 500, label })] *)
Definition GaugeChart (value : number) (max : option number) (label : string)
  : GaugeView :=
  let max := match max with Some m => m | None => Fin 500 end in
  let percentage := Math_min (value / max)%js (Fin 1) in
  let rotation := (Fin (-90) + percentage * Fin 180)%js in
  {| rotation := rotation;
     borderTopColor := getColor value;
     borderRightColor := if (value > Fin 250)%js then getColor value else "transparent";
     shown := Math_round value;
     caption := label |}.



(** ** The component under React's effect rules

    Besides the component state, a run has the browser's table of live
    intervals, the variable [interval] that the pending cleanup of the
    simulation effect closes over, and the state of [Math.random].  An
    event runs its handler; the commit that follows runs the cleanup and
    the body of the simulation effect when one of its dependencies
    [[isConnected, dataSource]] changed, and the history effect when
    [sensorData] was replaced. *)

Record Runtime : Type := mkRuntime {
  state : State;
  intervals : list nat;
  nextId : nat;
  interval : option nat;
  random : RNG
}.

Definition with_state (s : State) (rt : Runtime) : Runtime :=
  mkRuntime s (intervals rt) (nextId rt) (interval rt) (random rt).

(** [interval = setInterval(callback, 800)] *)
Definition setInterval (rt : Runtime) : Runtime :=
  mkRuntime (state rt) (nextId rt :: intervals rt) (S (nextId rt))
            (Some (nextId rt)) (random rt).

(** [clearInterval(h)]; [clearInterval(undefined)] does nothing. *)
Definition clearInterval (h : option nat) (rt : Runtime) : Runtime :=
  match h with
  | Some id =>
    mkRuntime (state rt) (List.remove Nat.eq_dec id (intervals rt))
              (nextId rt) (interval rt) (random rt)
  | None => rt
  end.

Definition is_simulation (d : DataSource) : bool :=
  match d with simulation => true | manual => false end.

(** Body of the simulation effect: [let interval] starts undefined. *)
Definition simulationEffect (rt : Runtime) : Runtime :=
  let rt := mkRuntime (state rt) (intervals rt) (nextId rt) None (random rt) in
  if isConnected (state rt) && is_simulation (dataSource (state rt))
  then setInterval rt
  else rt.

(** Its cleanup: [() => clearInterval(interval)]. *)
Definition simulationCleanup (rt : Runtime) : Runtime :=
  clearInterval (interval rt) rt.

(** The history effect; [now] is the formatted [new Date()]. *)
Definition historyEffect (now : string) (rt : Runtime) : Runtime :=
  let s := state rt in
  with_state
    (setDataHistory (appendHistory (dataHistory s) (entry_of now (sensorData s))) s)
    rt.

Inductive FieldName : Type := f_mq3 | f_mq4 | f_mq8 | f_mq135.

(** [{ ...manualInput, <f>: value }] *)
Definition update_field (f : FieldName) (v : Field) (m : ManualInputState)
  : ManualInputState :=
  match f with
  | f_mq3 => mkManualInput v (in_mq4 m) (in_mq8 m) (in_mq135 m)
  | f_mq4 => mkManualInput (in_mq3 m) v (in_mq8 m) (in_mq135 m)
  | f_mq8 => mkManualInput (in_mq3 m) (in_mq4 m) v (in_mq135 m)
  | f_mq135 => mkManualInput (in_mq3 m) (in_mq4 m) (in_mq8 m) v
  end.

Inductive Event : Type :=
| PortChange (value : string)
| ModelChange (value : string)
| ConnectClick
| DisconnectClick
| InputChange (f : FieldName) (value : string)
| RandomClick
| InjectClick
| IntervalFire (id : nat).

(** The handler of an event; the boolean tells whether [setSensorData]
    installed a new object.  A disabled button and an interval that is
    not live deliver nothing. *)
Definition handle (e : Event) (rt : Runtime) : Runtime * bool :=
  let s := state rt in
  match e with
  | PortChange v => (with_state (setSelectedPort v s) rt, false)
  | ModelChange v => (with_state (setSelectedModel v s) rt, false)
  | ConnectClick =>
    if isConnected s then (rt, false)
    else (with_state (setDataSource simulation (setIsConnected true s)) rt, false)
  | DisconnectClick =>
    if negb (isConnected s) then (rt, false)
    else (with_state (setIsConnected false s) rt, false)
  | InputChange f v =>
    (with_state (setManualInput (update_field f (Str v) (manualInput s)) s) rt,
     false)
  | RandomClick =>
    let (s', g) := generateRandomManual s (random rt) in
    (mkRuntime s' (intervals rt) (nextId rt) (interval rt) g, false)
  | InjectClick => (with_state (handleManualInject s) rt, true)
  | IntervalFire id =>
    if existsb (Nat.eqb id) (intervals rt) then
      let (d, g) := simulationTick (sensorData s) (random rt) in
      (mkRuntime (setSensorData d s) (intervals rt) (nextId rt) (interval rt) g,
       true)
    else (rt, false)
  end.

Definition same_deps (old new : State) : bool :=
  Bool.eqb (isConnected old) (isConnected new)
  && Bool.eqb (is_simulation (dataSource old)) (is_simulation (dataSource new)).

Definition commit (now : string) (old : State) (sensorChanged : bool)
  (rt : Runtime) : Runtime :=
  let rt :=
    if same_deps old (state rt) then rt
    else simulationEffect (simulationCleanup rt) in
  if sensorChanged then historyEffect now rt else rt.

Definition step (now : string) (e : Event) (rt : Runtime) : Runtime :=
  let (rt', sensorChanged) := handle e rt in
  commit now (state rt) sensorChanged rt'.

(** First render: every effect runs once. *)
Definition mount (g : RNG) (now : string) : Runtime :=
  historyEffect now (simulationEffect (mkRuntime initialState [] 1 None g)).

Inductive reachable : Runtime -> Prop :=
| reach_mount g now : valid g -> reachable (mount g now)
| reach_step rt e now : reachable rt -> reachable (step now e rt).

(** A run over a list of timed events. *)
Fixpoint run (es : list (string * Event)) (rt : Runtime) : Runtime :=
  match es with
  | [] => rt
  | (now, e) :: es' => run es' (step now e rt)
  end.

(** * The arithmetic in binary64

    A binary64 number is a rational [m * 2^e] with [|m| < 2^53] and
    [-1074 <= e <= 971].  An operation of the language returns the exact
    result rounded to the nearest such number, to the one with an even [m]
    on a tie, and an infinity when the rounded result reaches [2^1024].
    The sign of zero is not represented. *)

Module B64.

(** The integer [k] with [2^k <= a < 2^(k+1)], for [a > 0]. *)
Definition ilog2 (a : Q) : Z :=
  let k := (Z.log2 (Qnum a) - Z.log2 (Z.pos (Qden a)))%Z in
  if Qle_bool (2 ^ k) a then k else (k - 1)%Z.

(** The nearest integer, the even one on a tie. *)
Definition rne (x : Q) : Z :=
  let f := Qfloor x in
  match Qcompare (x - inject_Z f) (1 # 2) with
  | Lt => f
  | Gt => (f + 1)%Z
  | Eq => if Z.even f then f else (f + 1)%Z
  end.

(** The exponent of the binary64 numbers nearest to [a > 0]: 53
    significant bits, and the subnormal exponent below [2^-1022]. *)
Definition expo (a : Q) : Z := Z.max (ilog2 a - 52) (-1074).

Definition round_pos (a : Q) : Q :=
  inject_Z (rne (a / 2 ^ expo a)) * 2 ^ expo a.

(** Rounding to nearest, ties to even, exponent unbounded above. *)
Definition rnd (x : Q) : Q :=
  match x ?= 0 with
  | Eq => 0
  | Gt => round_pos x
  | Lt => - round_pos (- x)
  end.

(** The binary64 number a real result becomes. *)
Definition round64 (x : Q) : number :=
  let r := rnd x in
  if Qle_bool (2 ^ 1024) r then PosInf
  else if Qle_bool r (- 2 ^ 1024) then NegInf
  else Fin r.

Definition rounded (x : number) : number :=
  match x with
  | Fin q => round64 q
  | _ => x
  end.

(** A rational that is a binary64 number. *)
Definition representable (x : Q) : Prop := rnd x == x.

(** A decimal literal of the source: the binary64 number nearest to it.
    The literals that are binary64 numbers themselves (the integers, 7.5)
    are written [Fin]. *)
Definition lit (x : Q) : number := round64 x.

Definition add (x y : number) : number := rounded (JS.add x y).
Definition sub (x y : number) : number := rounded (JS.sub x y).
Definition mul (x y : number) : number := rounded (JS.mul x y).
Definition div (x y : number) : number := rounded (JS.div x y).

(** The rounded operations are written [+~], [-~], [*~] and [/~]; the
    comparisons are exact and are those of [JS]. *)
Module Notations.
Infix "+~" := add (at level 50, left associativity).
Infix "-~" := sub (at level 50, left associativity).
Infix "*~" := mul (at level 40, left associativity).
Infix "/~" := div (at level 40, left associativity).
End Notations.
Import Notations.

(** What [Math.random()] returns: binary64 numbers of [[0, 1)]. *)
Definition valid (g : RNG) : Prop :=
  forall n, 0 <= g n < 1 /\ representable (g n).

Section Classifier.

Variable toString_large : Q -> string.

Definition getVerdict (data : SensorData) : Verdict :=
  let isSpoiled := (mq3 data > threshold)%js in
  let confidence :=
    if isSpoiled
    then Math_min (lit 99.9) (Fin 85 +~ (mq3 data -~ threshold) *~ lit 0.1)
    else Math_min (lit 99.9) (Fin 90 +~ (threshold -~ mq3 data) *~ lit 0.05) in
  {| status := if isSpoiled then SPOILED else FRESH;
     label := if isSpoiled then "BUSUK (Terdeteksi Fermentasi)"
              else "SEGAR (Layak Konsumsi)";
     confidence := toFixed toString_large confidence 2;
     details :=
       if isSpoiled
       then "Kadar alkohol tinggi terdeteksi oleh sensor MQ3, mengindikasikan aktivitas mikroba."
       else "Profil gas dalam batas normal. Tidak ada tanda fermentasi signifikan." |}.

End Classifier.

Definition simulationTick (prev : SensorData) : Rand SensorData :=
  r <- Math_random ;;
  let isSpike := (r > lit 0.85)%js in
  r <- Math_random ;;
  let changeMQ3 := r *~ Fin 40 -~ Fin 20 in
  let changeMQ3 :=
    if isSpike
    then (if (mq3 prev < Fin 200)%js then Fin 150 else Fin (-100))
    else changeMQ3 in
  let newMQ3 := Math_max (Fin 0) (mq3 prev +~ changeMQ3) in
  r <- Math_random ;;
  let newMQ4 := Math_max (Fin 0) (Fin 200 +~ (r *~ Fin 20 -~ Fin 10)) in
  r <- Math_random ;;
  let newMQ8 := Math_max (Fin 0) (Fin 150 +~ (r *~ Fin 15 -~ Fin 7.5)) in
  r <- Math_random ;;
  let newMQ135 := Math_max (Fin 0) (Fin 300 +~ (r *~ Fin 30 -~ Fin 15)) in
  ret {| mq3 := newMQ3; mq4 := newMQ4; mq8 := newMQ8; mq135 := newMQ135 |}.

Definition generateRandomManual (s : State) : Rand State :=
  r3 <- Math_random ;;
  r4 <- Math_random ;;
  r8 <- Math_random ;;
  r135 <- Math_random ;;
  ret (setManualInput
         {| in_mq3 := Num (Math_floor (r3 *~ Fin 500));
            in_mq4 := Num (Math_floor (r4 *~ Fin 400));
            in_mq8 := Num (Math_floor (r8 *~ Fin 300));
            in_mq135 := Num (Math_floor (r135 *~ Fin 600)) |} s).

Definition GaugeChart (value : number) (max : option number) (label : string)
  : GaugeView :=
  let max := match max with Some m => m | None => Fin 500 end in
  let percentage := Math_min (value /~ max) (Fin 1) in
  let rotation := Fin (-90) +~ percentage *~ Fin 180 in
  {| rotation := rotation;
     borderTopColor := getColor value;
     borderRightColor := if (value > Fin 250)%js then getColor value else "transparent";
     shown := Math_round value;
     caption := label |}.

End B64.

Import B64.Notations.

(** ** The binary64 numbers of the kernel, for reference

    The operations of [B64] are compared further down with the kernel's
    own binary64 operations on a table of values. *)

(** The value of a binary64 number of the kernel; the sign of a zero is
    dropped. *)
Definition of_float (f : PrimFloat.float) : number :=
  match FloatOps.Prim2SF f with
  | SpecFloat.S754_zero _ => Fin 0
  | SpecFloat.S754_infinity false => PosInf
  | SpecFloat.S754_infinity true => NegInf
  | SpecFloat.S754_nan => NaN
  | SpecFloat.S754_finite s m e =>
    Fin ((if s then -1 else 1) * inject_Z (Z.pos m) * 2 ^ e)
  end.

Definition same_valueb (x y : number) : bool :=
  match x, y with
  | NaN, NaN | PosInf, PosInf | NegInf, NegInf => true
  | Fin a, Fin b => Qeq_bool a b
  | _, _ => false
  end.

(** The four operations of [B64] give on [x] and [y] what the kernel's
    give. *)
Definition agree (x y : PrimFloat.float) : bool :=
  same_valueb (of_float x +~ of_float y) (of_float (PrimFloat.add x y))
  && same_valueb (of_float x -~ of_float y) (of_float (PrimFloat.sub x y))
  && same_valueb (of_float x *~ of_float y) (of_float (PrimFloat.mul x y))
  && same_valueb (of_float x /~ of_float y) (of_float (PrimFloat.div x y)).

Section Reference.

Import PrimFloat.

(** The binary64 numbers nearest to 0.1, 0.05, 0.85, 99.9, 299.9, 300.05
    and 0.7; then [1 - 2^-52], [1 - 2^-53], 7.5, -100, 300, 600, the
    number nearest to [-10^-30], the least positive number, the greatest
    finite one, and [2^-1022 + 2^-1074]. *)
Definition reference_values : list float :=
  [0x1.999999999999ap-4; 0x1.999999999999ap-5; 0x1.b333333333333p-1;
   0x1.8f9999999999ap+6; 0x1.2be6666666666p+8; 0x1.2c0cccccccccdp+8;
   0x1.6666666666666p-1; 0x1.ffffffffffffep-1; 0x1.fffffffffffffp-1;
   7.5; -100; 300; 600; -0x1.4484bfeebc2ap-100; 0x1p-1074;
   0x1.fffffffffffffp+1023; 0x1.0000000000001p-1022]%float.

End Reference.

(** The same numbers, by rounding. *)
Definition reference_literals : list number :=
  [B64.lit 0.1; B64.lit 0.05; B64.lit 0.85; B64.lit 99.9; B64.lit 299.9;
   B64.lit 300.05; B64.lit 0.7; Fin (1 - (1 # 2 ^ 52));
   Fin (1 - (1 # 2 ^ 53)); Fin 7.5; Fin (-100); Fin 300; Fin 600;
   B64.lit (- (1 # 10 ^ 30)); Fin (2 ^ (-1074));
   Fin (2 ^ 1024 - 2 ^ 971); Fin (2 ^ (-1022) + 2 ^ (-1074))].

Fixpoint all_same (xs ys : list number) : bool :=
  match xs, ys with
  | [], [] => true
  | x :: xs', y :: ys' => same_valueb x y && all_same xs' ys'
  | _, _ => false
  end.

(** ** Notions used in the statements *)

(** Two numbers denote the same value. *)
Definition same_value (x y : number) : Prop :=
  match x, y with
  | NaN, NaN | PosInf, PosInf | NegInf, NegInf => True
  | Fin a, Fin b => a == b
  | _, _ => False
  end.

(** A number not below, or not above, the rational [q]: a finite one on
    that side of [q], or the infinity of that side. *)
Definition at_least (q : Q) (x : number) : Prop :=
  match x with
  | Fin r => q <= r
  | PosInf => True
  | _ => False
  end.

Definition at_most (q : Q) (x : number) : Prop :=
  match x with
  | Fin r => r <= q
  | NegInf => True
  | _ => False
  end.


(** A string of white space only. *)
Definition is_blank (str : string) : bool :=
  forallb is_ws (list_ascii_of_string str).



(** The last [n] elements of a list. *)
Definition lastn {A : Type} (n : nat) (l : list A) : list A :=
  skipn (List.length l - n) l.

(** The history buffers that appends build from the empty one. *)
Inductive reachable_buffer : list HistoryData -> Prop :=
| buffer_empty : reachable_buffer []
| buffer_append b e :
    reachable_buffer b -> reachable_buffer (appendHistory b e).

(** The simulation interval is live exactly when the component is
    connected in simulation mode, and [interval] is its handle. *)
Definition timer_inv (rt : Runtime) : Prop :=
  match interval rt with
  | Some id =>
    intervals rt = [id]
    /\ isConnected (state rt) = true /\ dataSource (state rt) = simulation
  | None =>
    intervals rt = []
    /\ (isConnected (state rt) = false \/ dataSource (state rt) = manual)
  end.

(** The interval [id] comes due: one event at time [now]. *)
Definition fire (tick : string * nat) : string * Event :=
  (fst tick, IntervalFire (snd tick)).

(** The events whose handler calls [setSensorData]. *)
Definition replaces_reading (e : Event) : bool :=
  match e with
  | InjectClick | IntervalFire _ => true
  | _ => false
  end.

(** A character that is a decimal digit. *)
Definition is_decimal_digit (c : ascii) : bool :=
  match digit_of 10 c with Some _ => true | None => false end.

(** The decimal numeral of an integer, as typed in a form field. *)
Definition numeral (z : Z) : string :=
  if (z <? 0)%Z then String "-" (digits (- z)) else digits z.

(** The channel of a reading that a form field feeds. *)
Definition channel (f : FieldName) (d : SensorData) : number :=
  match f with
  | f_mq3 => mq3 d
  | f_mq4 => mq4 d
  | f_mq8 => mq8 d
  | f_mq135 => mq135 d
  end.



(** ** Sample runs *)

(** A sequence of draws: 0.9, 0.25, 0.5, then 0.75 for ever. *)
Definition sample_draws : RNG :=
  fun n =>
    match n with
    | 0%nat => 0.9
    | 1%nat => 0.25
    | 2%nat => 0.5
    | _ => 0.75
    end.

Definition sample_start : Runtime := mount sample_draws "00.00".

(** Draws that are binary64 numbers: 0.875, 0.25, 0.5, then 0.75 for
    ever. *)
Definition dyadic_draws : RNG :=
  fun n =>
    match n with
    | 0%nat => 7 # 8
    | 1%nat => 1 # 4
    | 2%nat => 1 # 2
    | _ => 3 # 4
    end.

(** The largest value [Math.random] returns where it draws 52 bits:
    [1 - 2^-52], at every call. *)
Definition top_draws : RNG := fun _ => 1 - (1 # 2 ^ 52).

(** Connect, let the interval come due once, disconnect. *)
Definition sample_session : Runtime :=
  run [("00.01", ConnectClick); ("00.02", IntervalFire 1); ("00.03", DisconnectClick)]
      sample_start.

(** Type -5 in the first field of the form and inject. *)
Definition negative_injection : Runtime :=
  run [("00.01", InputChange f_mq3 "-5"); ("00.02", InjectClick)] sample_start.

(** The entry number [i], for a buffer of numbered entries. *)
Definition numbered (i : nat) : HistoryData :=
  entry_of (digits (Z.of_nat i)) (mkSensorData (of_Z (Z.of_nat i)) (Fin 200) (Fin 150) (Fin 300)).

(** * Facts *)

Local Open Scope Q_scope.

(** ** Numbers *)

Lemma Qltb_lt (a b : Q) : Qltb a b = true <-> a < b.
Proof.
  unfold Qltb. rewrite Qlt_alt. destruct (a ?= b); split; congruence.
Qed.

Lemma Qltb_ge (a b : Q) : Qltb a b = false <-> b <= a.
Proof.
  unfold Qltb. destruct (Qcompare_spec a b) as [H|H|H]; split; intro K;
    try reflexivity; try discriminate; try lra.
Qed.

Lemma Qltb_comp (a a' b b' : Q) : a == a' -> b == b' -> Qltb a b = Qltb a' b'.
Proof. intros Ha Hb. unfold Qltb. now rewrite Ha, Hb. Qed.

Lemma gt_Fin (a b : Q) : (Fin a > Fin b)%js = true <-> b < a.
Proof. apply Qltb_lt. Qed.

Lemma Math_min_Fin (a b : Q) :
  exists c, Math_min (Fin a) (Fin b) = Fin c /\ c == Qmin a b.
Proof.
  cbn. destruct (Qltb b a) eqn:E.
  - exists b. split; [reflexivity|]. apply Qltb_lt in E.
    symmetry. apply Q.min_r. lra.
  - exists a. split; [reflexivity|]. apply Qltb_ge in E.
    symmetry. apply Q.min_l. exact E.
Qed.

(** [Math.max(0, x)] is never below zero. *)
Lemma Math_max_0_not_below (x : number) :
  (Math_max (Fin 0) x < Fin 0)%js = false.
Proof.
  destruct x as [| | |q]; try reflexivity.
  cbn. destruct (Qltb 0 q) eqn:E; cbn.
  - apply Qltb_ge. apply Qltb_lt in E. lra.
  - reflexivity.
Qed.

(** ** toFixed below [10^21] *)

Lemma toFixed_small (ts : Q -> string) (c : Q) (f : nat) :
  0 <= c -> c < inject_Z (10 ^ 21) ->
  toFixed ts (Fin c) f = place_point f (digits (nearest_scaled f c)).
Proof.
  intros H0 H1. unfold toFixed.
  assert (E0 : Qltb c 0 = false) by (apply Qltb_ge; exact H0).
  rewrite E0.
  assert (Ea : Qabs c == c) by (apply Qabs_pos; exact H0).
  destruct (Qle_bool (inject_Z (10 ^ 21)) (Qabs c)) eqn:E.
  - apply Qle_bool_iff in E. rewrite Ea in E. lra.
  - cbn [String.append]. f_equal. f_equal. unfold nearest_scaled.
    apply Qfloor_comp. now rewrite Ea.
Qed.



(** ** The verdict classifier *)

Section ClassifierFacts.

Variable toString_large : Q -> string.

Local Notation "'classify'" := (getVerdict toString_large).

(** The number [getVerdict] formats, on a finite primary channel. *)
Lemma raw_confidence_Fin (p : Q) :
  exists c : Q,
    (if (Fin p > threshold)%js
     then Math_min (Fin 99.9) (Fin 85 + (Fin p - threshold) * Fin 0.1)%js
     else Math_min (Fin 99.9) (Fin 90 + (threshold - Fin p) * Fin 0.05)%js)
    = Fin c
    /\ c == (if Qltb 300 p then Qmin 99.9 (85 + (p - 300) * 0.1)
             else Qmin 99.9 (90 + (300 - p) * 0.05))
    /\ 0 <= c <= 99.9.
Proof.
  unfold threshold, gt. cbn [lt add sub mul].
  destruct (Qltb 300 p) eqn:E.
  - destruct (Math_min_Fin 99.9 (85 + (p - 300) * 0.1)) as (c & Hc & Hm).
    exists c. split; [exact Hc|]. split; [exact Hm|].
    apply Qltb_lt in E. rewrite Hm.
    apply Q.min_case_strong; intros; lra.
  - destruct (Math_min_Fin 99.9 (90 + (300 - p) * 0.05)) as (c & Hc & Hm).
    exists c. split; [exact Hc|]. split; [exact Hm|].
    apply Qltb_ge in E. rewrite Hm.
    apply Q.min_case_strong; intros; lra.
Qed.


(** C1: the status is SPOILED exactly when the primary channel is
    strictly greater than 300 (the comparison [>] of the language, and
    on a finite channel the order of the rationals); a primary channel
    of exactly 300 is FRESH. *)
Theorem C1_spoiled_iff_above_threshold :
  (forall d : SensorData,
      status (classify d) = SPOILED <-> (mq3 d > Fin 300)%js = true)
  /\ (forall (p : Q) (a b c : number),
      status (classify (mkSensorData (Fin p) a b c)) = SPOILED <-> 300 < p)
  /\ (forall d : SensorData,
      status (classify d) = FRESH <-> (mq3 d > Fin 300)%js = false)
  /\ (forall a b c : number,
      status (classify (mkSensorData (Fin 300) a b c)) = FRESH).
Proof.
  assert (A : forall d, status (classify d)
                        = if (mq3 d > Fin 300)%js then SPOILED else FRESH)
    by reflexivity.
  split; [|split; [|split]].
  - intros d. rewrite A. destruct (mq3 d > Fin 300)%js; split; congruence.
  - intros p a b c. rewrite A. cbn [mq3]. rewrite <- gt_Fin.
    destruct (Fin p > Fin 300)%js; split; congruence.
  - intros d. rewrite A. destruct (mq3 d > Fin 300)%js; split; congruence.
  - intros a b c. reflexivity.
Qed.

Lemma Math_min_comp (x x' y y' : Q) :
  x == x' -> y == y' ->
  same_value (Math_min (Fin x) (Fin y)) (Math_min (Fin x') (Fin y')).
Proof.
  intros Hx Hy. cbn. rewrite (Qltb_comp y y' x x' Hy Hx).
  destruct (Qltb y' x'); cbn; assumption.
Qed.

Lemma toFixed_comp (c c' : Q) :
  0 <= c <= 99.9 -> c == c' ->
  toFixed toString_large (Fin c) 2 = toFixed toString_large (Fin c') 2.
Proof.
  intros Hc E.
  rewrite !toFixed_small.
  - unfold nearest_scaled. do 2 f_equal. apply Qfloor_comp. now rewrite E.
  - rewrite <- E. apply Hc.
  - rewrite <- E. apply Qle_lt_trans with 99.9; [apply Hc | reflexivity].
  - apply Hc.
  - apply Qle_lt_trans with 99.9; [apply Hc | reflexivity].
Qed.

(** The verdict is a function of the primary channel. *)
Lemma getVerdict_mq3_only (d : SensorData) :
  classify d = classify (mkSensorData (mq3 d) NaN NaN NaN).
Proof. reflexivity. Qed.

(** C8: two readings whose primary channels have the same value get the
    same verdict: status, label, confidence and details, whatever the
    three other channels are. *)
Theorem C8_verdict_depends_on_mq3_only (d1 d2 : SensorData) :
  same_value (mq3 d1) (mq3 d2) -> classify d1 = classify d2.
Proof.
  intros H.
  rewrite (getVerdict_mq3_only d1), (getVerdict_mq3_only d2).
  destruct (mq3 d1) as [| | |p], (mq3 d2) as [| | |q]; cbn in H;
    try contradiction; try reflexivity.
  unfold getVerdict. cbn [mq3]. unfold threshold, gt. cbn [lt add sub mul].
  rewrite (Qltb_comp 300 300 p q (Qeq_refl _) H).
  destruct (raw_confidence_Fin p) as (c & Hc & _ & Hr).
  revert Hc. unfold threshold, gt. cbn [lt add sub mul].
  rewrite (Qltb_comp 300 300 p q (Qeq_refl _) H).
  destruct (Qltb 300 q); intros Hc.
  - pose proof (Math_min_comp 99.9 99.9 (85 + (p - 300) * 0.1)
                              (85 + (q - 300) * 0.1) (Qeq_refl _)) as M.
    rewrite Hc in *.
    destruct (Math_min (Fin 99.9) (Fin (85 + (q - 300) * 0.1))) as [| | |c'];
      try (exfalso; apply M; rewrite H; reflexivity).
    f_equal. apply toFixed_comp; [exact Hr|]. apply M. now rewrite H.
  - pose proof (Math_min_comp 99.9 99.9 (90 + (300 - p) * 0.05)
                              (90 + (300 - q) * 0.05) (Qeq_refl _)) as M.
    rewrite Hc in *.
    destruct (Math_min (Fin 99.9) (Fin (90 + (300 - q) * 0.05))) as [| | |c'];
      try (exfalso; apply M; rewrite H; reflexivity).
    f_equal. apply toFixed_comp; [exact Hr|]. apply M. now rewrite H.
Qed.

End ClassifierFacts.

(** ** The rolling history *)

Section ListFacts.

Context {A : Type}.

Lemma lastn_short (n : nat) (l : list A) :
  (List.length l <= n)%nat -> lastn n l = l.
Proof.
  intros H. unfold lastn. replace (List.length l - n)%nat with O by lia.
  reflexivity.
Qed.

Lemma lastn_length (n : nat) (l : list A) :
  List.length (lastn n l) = Nat.min n (List.length l).
Proof. unfold lastn. rewrite length_skipn. lia. Qed.

Lemma skipn_snoc (k : nat) (l : list A) (e : A) :
  (k <= List.length l)%nat -> skipn k (l ++ [e])%list = (skipn k l ++ [e])%list.
Proof.
  intros H. rewrite skipn_app.
  replace (k - List.length l)%nat with O by lia. reflexivity.
Qed.

Lemma lastn_snoc (n : nat) (l : list A) (e : A) :
  (1 <= n)%nat ->
  lastn n (lastn n l ++ [e])%list = lastn n (l ++ [e])%list.
Proof.
  intros Hn.
  destruct (Nat.le_gt_cases (List.length l) n) as [H|H].
  - now rewrite (lastn_short n l H).
  - unfold lastn at 1 3. rewrite !length_app, lastn_length. cbn [List.length].
    replace (Nat.min n (List.length l) + 1 - n)%nat with 1%nat by lia.
    rewrite !skipn_snoc.
    + unfold lastn. rewrite skipn_skipn. do 2 f_equal. lia.
    + lia.
    + rewrite lastn_length. lia.
Qed.

End ListFacts.

Lemma appendHistory_lastn (b : list HistoryData) (e : HistoryData) :
  (List.length b <= 20)%nat -> appendHistory b e = lastn 20 (b ++ [e])%list.
Proof.
  intros H. unfold appendHistory, shift.
  destruct (20 <? List.length (b ++ [e]))%nat eqn:E.
  - apply Nat.ltb_lt in E. rewrite length_app in E. cbn in E.
    unfold lastn. rewrite length_app. cbn [List.length].
    replace (List.length b + 1 - 20)%nat with 1%nat by lia. reflexivity.
  - apply Nat.ltb_ge in E. symmetry. apply lastn_short. exact E.
Qed.

Lemma appendHistory_bounded (b : list HistoryData) (e : HistoryData) :
  (List.length b <= 20)%nat -> (List.length (appendHistory b e) <= 20)%nat.
Proof.
  intros H. rewrite appendHistory_lastn by exact H. rewrite lastn_length. lia.
Qed.

(** Past the capacity a single [shift] removes one entry only. *)
Lemma appendHistory_over (b : list HistoryData) (e : HistoryData) :
  (20 <= List.length b)%nat ->
  List.length (appendHistory b e) = List.length b.
Proof.
  intros H. unfold appendHistory, shift.
  assert (E : (20 <? List.length (b ++ [e]))%nat = true).
  { apply Nat.ltb_lt. rewrite length_app. cbn. lia. }
  rewrite E. destruct b as [|x b]; cbn in *; [lia|].
  rewrite length_app. cbn. lia.
Qed.

Lemma reachable_buffer_bounded (b : list HistoryData) :
  reachable_buffer b -> (List.length b <= 20)%nat.
Proof.
  induction 1 as [|b e _ IH]; [cbn; lia|]. now apply appendHistory_bounded.
Qed.

Lemma fold_appendHistory (es : list HistoryData) :
  fold_left appendHistory es [] = lastn 20 es.
Proof.
  induction es as [|e es IH] using rev_ind; [reflexivity|].
  rewrite fold_left_app. cbn [fold_left]. rewrite IH.
  rewrite appendHistory_lastn by (rewrite lastn_length; lia).
  apply lastn_snoc. lia.
Qed.

(** ** The simulation interval *)

Lemma timer_inv_effect (rt : Runtime) :
  intervals (simulationCleanup rt) = [] ->
  timer_inv (simulationEffect (simulationCleanup rt)).
Proof.
  intros H. unfold simulationEffect, timer_inv, setInterval.
  cbn [state intervals nextId interval random].
  destruct (isConnected (state (simulationCleanup rt))) eqn:Ec;
    destruct (dataSource (state (simulationCleanup rt))) eqn:Ed;
    cbn [andb is_simulation interval intervals state];
    rewrite ?H, ?Ec, ?Ed; auto.
Qed.

Lemma cleanup_clears (rt : Runtime) :
  intervals rt = match interval rt with Some id => [id] | None => [] end ->
  intervals (simulationCleanup rt) = [].
Proof.
  unfold simulationCleanup, clearInterval.
  destruct (interval rt) as [id|]; intros H; [|exact H].
  cbn [intervals]. rewrite H. cbn. destruct (Nat.eq_dec id id); congruence.
Qed.

Lemma same_deps_eq (old new : State) :
  same_deps old new = true ->
  isConnected old = isConnected new /\ dataSource old = dataSource new.
Proof.
  unfold same_deps. rewrite andb_true_iff. intros [H1 H2].
  apply Bool.eqb_prop in H1, H2. split; [exact H1|].
  destruct (dataSource old), (dataSource new); cbn in H2; congruence.
Qed.

(** The commit keeps the invariant when the handler left the interval
    table and [interval] alone. *)
Lemma commit_timer_inv (now : string) (old : Runtime) (ch : bool) (rt : Runtime) :
  timer_inv old ->
  intervals rt = intervals old -> interval rt = interval old ->
  timer_inv (commit now (state old) ch rt).
Proof.
  intros Hinv Hi Hv.
  assert (K : timer_inv (if same_deps (state old) (state rt) then rt
                         else simulationEffect (simulationCleanup rt))).
  { destruct (same_deps (state old) (state rt)) eqn:E.
    - apply same_deps_eq in E. destruct E as [E1 E2].
      unfold timer_inv in *. rewrite Hv, Hi, <- E1, <- E2. exact Hinv.
    - apply timer_inv_effect. apply cleanup_clears.
      unfold timer_inv in Hinv. rewrite Hv, Hi.
      destruct (interval old); apply Hinv. }
  unfold commit. destruct ch; [|exact K].
  unfold historyEffect, timer_inv, with_state in *.
  cbn [state intervals interval setDataHistory isConnected dataSource]. exact K.
Qed.

Lemma handle_keeps_timers (e : Event) (rt : Runtime) :
  intervals (fst (handle e rt)) = intervals rt
  /\ interval (fst (handle e rt)) = interval rt.
Proof.
  destruct e; cbn [handle];
    repeat match goal with
           | |- context [if ?b then _ else _] => destruct b
           | |- context [let (_, _) := ?c in _] => destruct c
           end; cbn; auto.
Qed.

Lemma step_timer_inv (now : string) (e : Event) (rt : Runtime) :
  timer_inv rt -> timer_inv (step now e rt).
Proof.
  intros H. unfold step.
  pose proof (handle_keeps_timers e rt) as [H1 H2].
  destruct (handle e rt) as [rt' ch]. cbn [fst] in *.
  now apply commit_timer_inv.
Qed.

Lemma reachable_timer_inv (rt : Runtime) : reachable rt -> timer_inv rt.
Proof.
  induction 1 as [g now _|rt e now _ IH].
  - cbv. auto.
  - now apply step_timer_inv.
Qed.

Lemma fire_when_stopped (now : string) (id : nat) (rt : Runtime) :
  intervals rt = [] -> step now (IntervalFire id) rt = rt.
Proof.
  intros H. unfold step, handle. rewrite H. cbn [existsb].
  unfold commit, same_deps. rewrite !Bool.eqb_reflx. reflexivity.
Qed.

Lemma run_fire_when_stopped (ticks : list (string * nat)) (rt : Runtime) :
  intervals rt = [] -> run (map fire ticks) rt = rt.
Proof.
  intros H. induction ticks as [|[now id] ticks IH]; [reflexivity|].
  cbn [map fire run fst snd]. rewrite fire_when_stopped by exact H. exact IH.
Qed.

Lemma state_cleanup (rt : Runtime) : state (simulationCleanup rt) = state rt.
Proof.
  unfold simulationCleanup, clearInterval. destruct (interval rt); reflexivity.
Qed.

Lemma state_effect (rt : Runtime) : state (simulationEffect rt) = state rt.
Proof.
  unfold simulationEffect. cbn [state].
  destruct (isConnected (state rt) && is_simulation (dataSource (state rt)));
    reflexivity.
Qed.

(** What a commit does to the component state: the history effect only. *)
Lemma state_commit (now : string) (old : State) (ch : bool) (rt : Runtime) :
  state (commit now old ch rt)
  = if ch
    then setDataHistory
           (appendHistory (dataHistory (state rt))
                          (entry_of now (sensorData (state rt))))
           (state rt)
    else state rt.
Proof.
  unfold commit.
  assert (E : state (if same_deps old (state rt) then rt
                     else simulationEffect (simulationCleanup rt)) = state rt).
  { destruct (same_deps old (state rt)); [reflexivity|].
    now rewrite state_effect, state_cleanup. }
  destruct ch; [|exact E].
  unfold historyEffect, with_state. cbn [state]. now rewrite E.
Qed.

Lemma disconnect_state (now : string) (rt : Runtime) :
  isConnected (state (step now DisconnectClick rt)) = false.
Proof.
  unfold step, handle.
  destruct (isConnected (state rt)) eqn:E; cbn [negb];
    rewrite state_commit; cbn; auto.
Qed.

Lemma inject_state (now : string) (rt : Runtime) :
  state (step now InjectClick rt)
  = setDataHistory
      (appendHistory (dataHistory (state rt))
                     (entry_of now (sensorData (handleManualInject (state rt)))))
      (handleManualInject (state rt)).
Proof. unfold step, handle. rewrite state_commit. reflexivity. Qed.

(** C7: in every state the component can reach at most one interval is
    live; when the component is disconnected or in manual mode none is,
    and then no interval coming due, however many, changes anything; a
    disconnect and an injection each leave no interval live; and while
    connected in simulation mode exactly one is. *)
Theorem C7_no_tick_unless_connected_simulation (rt : Runtime) :
  reachable rt ->
  (List.length (intervals rt) <= 1)%nat
  /\ (isConnected (state rt) = false \/ dataSource (state rt) = manual ->
      intervals rt = []
      /\ forall ticks : list (string * nat), run (map fire ticks) rt = rt)
  /\ (forall now, intervals (step now DisconnectClick rt) = [])
  /\ (forall now, intervals (step now InjectClick rt) = [])
  /\ (isConnected (state rt) = true -> dataSource (state rt) = simulation ->
      exists id, intervals rt = [id]).
Proof.
  intros R.
  assert (Stopped : forall r, reachable r ->
            isConnected (state r) = false \/ dataSource (state r) = manual ->
            intervals r = []).
  { intros r Hr Hs. pose proof (reachable_timer_inv r Hr) as I.
    unfold timer_inv in I. destruct (interval r).
    - destruct I as (_ & Hc & Hd). destruct Hs; congruence.
    - apply I. }
  pose proof (reachable_timer_inv rt R) as I. unfold timer_inv in I.
  split; [|split; [|split; [|split]]].
  - destruct (interval rt); destruct I as [-> _]; cbn; lia.
  - intros Hs. split; [now apply Stopped|].
    intros ticks. apply run_fire_when_stopped. now apply Stopped.
  - intros now. apply Stopped; [now constructor|].
    left. apply disconnect_state.
  - intros now. apply Stopped; [now constructor|].
    left. rewrite inject_state. reflexivity.
  - intros Hc Hd. destruct (interval rt) as [id|].
    + exists id. apply I.
    + destruct I as (_ & [H|H]); congruence.
Qed.

(** ** The simulation tick *)

(** The tick written out on the five values it draws. *)
Lemma simulationTick_eq (prev : SensorData) (g : RNG) :
  simulationTick prev g
  = ({| mq3 := Math_max (Fin 0)
                 (mq3 prev
                  + (if (Fin (g 0%nat) > Fin 0.85)%js
                     then (if (mq3 prev < Fin 200)%js then Fin 150 else Fin (-100))
                     else (Fin (g 1%nat) * Fin 40 - Fin 20)%js))%js;
        mq4 := Math_max (Fin 0) (Fin 200 + (Fin (g 2%nat) * Fin 20 - Fin 10))%js;
        mq8 := Math_max (Fin 0) (Fin 150 + (Fin (g 3%nat) * Fin 15 - Fin 7.5))%js;
        mq135 := Math_max (Fin 0) (Fin 300 + (Fin (g 4%nat) * Fin 30 - Fin 15))%js |},
     fun n => g (5 + n)%nat).
Proof. reflexivity. Qed.

Lemma valid_shift (k : nat) (g : RNG) :
  valid g -> valid (fun n => g (k + n)%nat).
Proof. intros H n. apply H. Qed.


(** A tick puts no channel below zero, whatever the draws. *)
Lemma simulationTick_not_below (prev : SensorData) (g : RNG) :
  let next := fst (simulationTick prev g) in
  (mq3 next < Fin 0)%js = false /\ (mq4 next < Fin 0)%js = false
  /\ (mq8 next < Fin 0)%js = false /\ (mq135 next < Fin 0)%js = false.
Proof.
  rewrite simulationTick_eq. cbn [fst mq3 mq4 mq8 mq135].
  repeat split; apply Math_max_0_not_below.
Qed.

(** ** Manual injection and the randomiser *)

Lemma trim_left_ws (l : list ascii) : forallb is_ws l = true -> trim_left l = [].
Proof.
  induction l as [|c l IH]; [reflexivity|].
  cbn. destruct (is_ws c); [exact IH|discriminate].
Qed.

Lemma StringToNumber_blank (str : string) :
  is_blank str = true -> StringToNumber str = Fin 0.
Proof.
  unfold is_blank, StringToNumber, trim. intros H.
  now rewrite (trim_left_ws _ H).
Qed.

Lemma or_else_NaN (x : number) : is_NaN x = true -> (x || Fin 0)%js = Fin 0.
Proof. destruct x; [reflexivity|discriminate..]. Qed.

Lemma or_else_truthy (x : number) : truthy x = true -> (x || Fin 0)%js = x.
Proof. unfold or_else. now intros ->. Qed.


Lemma Qfloor_iff (x : Q) (k : Z) :
  Qfloor x = k <-> inject_Z k <= x < inject_Z (k + 1).
Proof.
  split.
  - intros <-. split; [apply Qfloor_le|apply Qlt_floor].
  - intros [H1 H2].
    assert (A : (k <= Qfloor x)%Z).
    { rewrite <- (Qfloor_Z k). now apply Qfloor_resp_le. }
    assert (B : (Qfloor x < k + 1)%Z).
    { rewrite Zlt_Qlt. apply Qle_lt_trans with x; [apply Qfloor_le|exact H2]. }
    lia.
Qed.

(** [Math.floor(u * m)] on a draw [u] is an integer of [[0, m)]. *)
Lemma floor_draw (u : Q) (m : Z) :
  0 <= u < 1 -> (0 < m)%Z ->
  Math_floor (Fin u * Fin (inject_Z m))%js = of_Z (Qfloor (u * inject_Z m))
  /\ (0 <= Qfloor (u * inject_Z m) < m)%Z.
Proof.
  intros [H0 H1] Hm. split; [reflexivity|].
  assert (M : 0 < inject_Z m).
  { change 0 with (inject_Z 0). now rewrite <- Zlt_Qlt. }
  split.
  - change 0%Z with (Qfloor 0). apply Qfloor_resp_le.
    apply Qmult_le_0_compat; lra.
  - rewrite Zlt_Qlt. apply Qle_lt_trans with (u * inject_Z m); [apply Qfloor_le|].
    setoid_replace (inject_Z m) with (1 * inject_Z m) at 2 by ring.
    apply Qmult_lt_compat_r; assumption.
Qed.

Lemma generateRandomManual_eq (s : State) (g : RNG) :
  generateRandomManual s g
  = (setManualInput
       {| in_mq3 := Num (Math_floor (Fin (g 0%nat) * Fin 500)%js);
          in_mq4 := Num (Math_floor (Fin (g 1%nat) * Fin 400)%js);
          in_mq8 := Num (Math_floor (Fin (g 2%nat) * Fin 300)%js);
          in_mq135 := Num (Math_floor (Fin (g 3%nat) * Fin 600)%js) |} s,
     fun n => g (4 + n)%nat).
Proof. reflexivity. Qed.

Lemma random_click_state (now : string) (rt : Runtime) :
  step now RandomClick rt
  = mkRuntime (fst (generateRandomManual (state rt) (random rt)))
              (intervals rt) (nextId rt) (interval rt)
              (fun n => random rt (4 + n)%nat).
Proof.
  unfold step, handle. rewrite generateRandomManual_eq. cbn [fst].
  unfold commit, same_deps. cbn [state setManualInput isConnected dataSource].
  now rewrite !Bool.eqb_reflx.
Qed.

(** C5: an injection sets each channel to [Number(field) || 0], which is 0
    for a field that is not numeric and for a blank one, and the number
    read otherwise; it sets the data source to manual and the connection
    flag to false, and leaves the form as it was; the fields
    ["abc"], ["50"], [""], ["10"] give the reading 0, 50, 0, 10.  The
    handler is a total function: no input makes it fail. *)
Theorem C5_manual_injection :
  (forall (now : string) (rt : Runtime),
      let m := manualInput (state rt) in
      let s' := state (step now InjectClick rt) in
      sensorData s'
      = {| mq3 := (Number (in_mq3 m) || Fin 0)%js;
           mq4 := (Number (in_mq4 m) || Fin 0)%js;
           mq8 := (Number (in_mq8 m) || Fin 0)%js;
           mq135 := (Number (in_mq135 m) || Fin 0)%js |}
      /\ dataSource s' = manual /\ isConnected s' = false
      /\ manualInput s' = m)
  /\ (forall f : Field, is_NaN (Number f) = true -> (Number f || Fin 0)%js = Fin 0)
  /\ (forall str : string,
      is_blank str = true -> (Number (Str str) || Fin 0)%js = Fin 0)
  /\ (forall f : Field, truthy (Number f) = true -> (Number f || Fin 0)%js = Number f)
  /\ (forall (now : string) (rt : Runtime),
      manualInput (state rt)
      = {| in_mq3 := Str "abc"; in_mq4 := Str "50"; in_mq8 := Str "";
           in_mq135 := Str "10" |} ->
      let s' := state (step now InjectClick rt) in
      sensorData s' = {| mq3 := Fin 0; mq4 := Fin 50; mq8 := Fin 0; mq135 := Fin 10 |}
      /\ dataSource s' = manual /\ isConnected s' = false).
Proof.
  split; [|split; [|split; [|split]]].
  - intros now rt m s'. subst s' m. rewrite inject_state. cbn. auto.
  - intros f. apply or_else_NaN.
  - intros str H. cbn [Number]. now rewrite (StringToNumber_blank str H).
  - intros f. apply or_else_truthy.
  - intros now rt E s'. subst s'. rewrite inject_state.
    cbn [sensorData dataSource isConnected setDataHistory handleManualInject
         setSensorData setIsConnected setDataSource manualInput].
    rewrite E. cbn [in_mq3 in_mq4 in_mq8 in_mq135].
    repeat split.
Qed.

(** ** Invariants of the reachable states *)

Lemma random_commit (now : string) (old : State) (ch : bool) (rt : Runtime) :
  random (commit now old ch rt) = random rt.
Proof.
  unfold commit, historyEffect, with_state, simulationEffect,
    simulationCleanup, clearInterval, setInterval.
  repeat match goal with
         | |- context [if ?b then _ else _] => destruct b
         | |- context [match interval ?r with _ => _ end] => destruct (interval r)
         end; reflexivity.
Qed.

Lemma step_random (now : string) (e : Event) (rt : Runtime) :
  exists k, random (step now e rt) = fun n => random rt (k + n)%nat.
Proof.
  unfold step.
  destruct e; cbn [handle];
    repeat match goal with
           | |- context [if ?b then _ else _] => destruct b
           end;
    rewrite ?generateRandomManual_eq, ?simulationTick_eq, random_commit;
    cbn [random with_state];
    solve [ exists 0%nat; reflexivity | exists 4%nat; reflexivity
          | exists 5%nat; reflexivity ].
Qed.

Lemma reachable_valid (rt : Runtime) : reachable rt -> valid (random rt).
Proof.
  induction 1 as [g now V|rt e now _ IH]; [exact V|].
  destruct (step_random now e rt) as [k ->]. now apply valid_shift.
Qed.

Lemma handle_state (e : Event) (rt : Runtime) :
  dataHistory (state (fst (handle e rt))) = dataHistory (state rt)
  /\ (snd (handle e rt) = false ->
      sensorData (state (fst (handle e rt))) = sensorData (state rt))
  /\ (snd (handle e rt) = true ->
      sensorData (state (fst (handle e rt)))
      = sensorData (handleManualInject (state rt))
      \/ sensorData (state (fst (handle e rt)))
         = fst (simulationTick (sensorData (state rt)) (random rt))).
Proof.
  destruct e; cbn [handle];
    repeat match goal with
           | |- context [if ?b then _ else _] => destruct b
           end;
    rewrite ?generateRandomManual_eq, ?simulationTick_eq;
    cbn; repeat split; intros; try discriminate; auto.
Qed.

Lemma step_state (now : string) (e : Event) (rt : Runtime) :
  (dataHistory (state (step now e rt)) = dataHistory (state rt)
   \/ exists entry,
       dataHistory (state (step now e rt))
       = appendHistory (dataHistory (state rt)) entry)
  /\ (sensorData (state (step now e rt)) = sensorData (state rt)
      \/ sensorData (state (step now e rt))
         = sensorData (handleManualInject (state rt))
      \/ sensorData (state (step now e rt))
         = fst (simulationTick (sensorData (state rt)) (random rt))).
Proof.
  unfold step. pose proof (handle_state e rt) as (Hh & Hf & Ht).
  destruct (handle e rt) as [rt' ch]. cbn [fst snd] in *.
  rewrite state_commit. destruct ch.
  - cbn [dataHistory sensorData setDataHistory]. split.
    + right. eexists. rewrite Hh. reflexivity.
    + right. now apply Ht.
  - split; [left; exact Hh|left; now apply Hf].
Qed.

Lemma reachable_history (rt : Runtime) :
  reachable rt -> reachable_buffer (dataHistory (state rt)).
Proof.
  induction 1 as [g now V|rt e now _ IH].
  - apply (buffer_append [] _ buffer_empty).
  - destruct (step_state now e rt) as [[->|[entry ->]] _];
      [exact IH|now constructor].
Qed.






Section ClassifierOnNaN.

Variable toString_large : Q -> string.

(** On a [NaN] primary channel, which no reachable reading has, the
    confidence is the string NaN. *)
Lemma confidence_NaN (a b c : number) :
  confidence (getVerdict toString_large (mkSensorData NaN a b c)) = "NaN".
Proof. reflexivity. Qed.

End ClassifierOnNaN.

(** C3: on a buffer of at most 20 entries (every buffer that appends build
    from the empty one is such, and so is the history in every reachable
    state) an append yields the last 20 elements of [buffer ++ [entry]],
    order kept; appending a list of entries one by one to the empty buffer
    yields its last 20 elements, and for 25 entries that is the list
    without its first 5, of length 20. *)
Theorem C3_history_append :
  (forall (b : list HistoryData) (e : HistoryData),
      (List.length b <= 20)%nat -> appendHistory b e = lastn 20 (b ++ [e])%list)
  /\ (forall (b : list HistoryData) (e : HistoryData),
      reachable_buffer b -> appendHistory b e = lastn 20 (b ++ [e])%list)
  /\ (forall es : list HistoryData, fold_left appendHistory es [] = lastn 20 es)
  /\ (forall es : list HistoryData,
      List.length es = 25%nat ->
      fold_left appendHistory es [] = skipn 5 es
      /\ List.length (fold_left appendHistory es []) = 20%nat)
  /\ (forall b : list HistoryData,
      reachable_buffer b -> (List.length b <= 20)%nat)
  /\ (forall rt : Runtime,
      reachable rt -> (List.length (dataHistory (state rt)) <= 20)%nat).
Proof.
  split; [exact appendHistory_lastn|].
  split; [intros b e R; apply appendHistory_lastn;
          now apply reachable_buffer_bounded|].
  split; [exact fold_appendHistory|].
  split.
  { intros es H. rewrite fold_appendHistory. unfold lastn. rewrite H.
    split; [reflexivity|]. rewrite length_skipn, H. reflexivity. }
  split; [exact reachable_buffer_bounded|].
  intros rt R. apply reachable_buffer_bounded. now apply reachable_history.
Qed.

(** Entries 1 to 25 appended to the empty buffer leave entries 6 to 25. *)
Example history_of_25 :
  fold_left appendHistory (map numbered (seq 1 25)) [] = map numbered (seq 6 20).
Proof. vm_compute. reflexivity. Qed.

(** ** Sample runs *)

Lemma sample_draws_valid : valid sample_draws.
Proof.
  intros n. do 3 (destruct n as [|n]; [cbn; lra|]). cbn. lra.
Qed.

Lemma run_reachable (es : list (string * Event)) (rt : Runtime) :
  reachable rt -> reachable (run es rt).
Proof.
  revert rt. induction es as [|[now e] es IH]; intros rt R; [exact R|].
  cbn [run]. apply IH. now constructor.
Qed.

Lemma sample_start_reachable : reachable sample_start.
Proof. constructor. exact sample_draws_valid. Qed.

Lemma sample_session_reachable : reachable sample_session.
Proof. apply run_reachable. exact sample_start_reachable. Qed.

(** The session ticks once while connected: its reading is the spike of
    the first draws on the initial reading. *)
Example sample_session_reading :
  sensorData (state sample_session)
  = {| mq3 := Fin (45 + 150); mq4 := Fin (200 + (0.5 * 20 - 10));
       mq8 := Fin (150 + (0.75 * 15 - 7.5)); mq135 := Fin (300 + (0.75 * 30 - 15)) |}
  /\ List.length (dataHistory (state sample_session)) = 2%nat
  /\ intervals sample_session = [].
Proof. vm_compute. repeat split. Qed.

(** C6: typing -5 in the first field of the manual form and injecting
    leads to a reachable state whose primary channel is -5, below zero:
    the injection stores [Number(field) || 0] without the clamp at zero
    that the tick applies to each channel. *)
Theorem C6_injection_below_zero :
  reachable negative_injection
  /\ mq3 (sensorData (state negative_injection)) = Fin (-5)
  /\ (mq3 (sensorData (state negative_injection)) < Fin 0)%js = true.
Proof.
  split; [apply run_reachable; exact sample_start_reachable|].
  vm_compute. split; reflexivity.
Qed.

(** ** The theorems at sample inputs *)

Lemma C8_verdict_depends_on_mq3_only_witness :
  same_value (Fin (1 # 2)) (Fin (2 # 4))
  /\ getVerdict (fun _ => "") (mkSensorData (Fin (1 # 2)) (Fin 200) (Fin 150) (Fin 300))
     = getVerdict (fun _ => "") (mkSensorData (Fin (2 # 4)) (Fin 7) PosInf (Fin (-1))).
Proof.
  split; [reflexivity|].
  apply (C8_verdict_depends_on_mq3_only (fun _ => "")
           (mkSensorData (Fin (1 # 2)) (Fin 200) (Fin 150) (Fin 300))
           (mkSensorData (Fin (2 # 4)) (Fin 7) PosInf (Fin (-1)))).
  reflexivity.
Defined.

Lemma C7_no_tick_unless_connected_simulation_witness :
  reachable sample_session
  /\ isConnected (state sample_session) = false
  /\ intervals sample_session = []
  /\ run (map fire [("00.04", 1%nat); ("00.05", 1%nat); ("00.06", 2%nat)]) sample_session
     = sample_session.
Proof.
  split; [exact sample_session_reachable|].
  split; [reflexivity|].
  destruct (C7_no_tick_unless_connected_simulation sample_session
              sample_session_reachable) as (_ & Stopped & _).
  destruct (Stopped (or_introl eq_refl)) as [E T].
  split; [exact E|apply T].
Defined.

(** * Further properties of the component *)

(** ** The history updater on any list *)

Lemma appendHistory_snoc (b : list HistoryData) (e : HistoryData) :
  appendHistory b e
  = ((if (List.length b <? 20)%nat then b else tl b) ++ [e])%list.
Proof.
  unfold appendHistory, shift. rewrite length_app. cbn [List.length].
  destruct (List.length b <? 20)%nat eqn:L.
  - apply Nat.ltb_lt in L.
    replace (20 <? List.length b + 1)%nat with false
      by (symmetry; apply Nat.ltb_ge; lia).
    reflexivity.
  - apply Nat.ltb_ge in L.
    replace (20 <? List.length b + 1)%nat with true
      by (symmetry; apply Nat.ltb_lt; lia).
    destruct b as [|x b]; [cbn in L; lia|reflexivity].
Qed.

(** X1: whatever the length of the buffer, the new entry is the last of
    the result and the entries before it are the buffer itself when it has
    fewer than 20 entries, and the buffer without its oldest entry
    otherwise: the newest entry is never the one dropped, and a buffer
    already over the capacity is never shortened. *)
Theorem appendHistory_shape (b : list HistoryData) (e : HistoryData) :
  appendHistory b e
  = ((if (List.length b <? 20)%nat then b else tl b) ++ [e])%list
  /\ List.length (appendHistory b e)
     = (if (List.length b <? 20)%nat then S (List.length b) else List.length b).
Proof.
  split; [apply appendHistory_snoc|].
  rewrite appendHistory_snoc, length_app. cbn [List.length].
  destruct (List.length b <? 20)%nat eqn:L; [lia|].
  apply Nat.ltb_ge in L. destruct b as [|x b]; cbn in *; lia.
Qed.

(** X2: appending the entries [es] one by one to a buffer of at most 20
    entries leaves the last 20 elements of [b ++ es]; so 20 or more
    appends leave nothing of the former buffer. *)
Theorem fold_appendHistory_from (b es : list HistoryData) :
  (List.length b <= 20)%nat ->
  fold_left appendHistory es b = lastn 20 (b ++ es)%list
  /\ ((20 <= List.length es)%nat -> fold_left appendHistory es b = lastn 20 es).
Proof.
  intros Hb.
  assert (F : forall es, fold_left appendHistory es b = lastn 20 (b ++ es)%list).
  { induction es0 as [|e es0 IH] using rev_ind.
    - rewrite app_nil_r. symmetry. now apply lastn_short.
    - rewrite fold_left_app. cbn [fold_left]. rewrite IH.
      rewrite appendHistory_lastn by (rewrite lastn_length; lia).
      rewrite app_assoc. apply lastn_snoc. lia. }
  split; [apply F|].
  intros He. rewrite F. unfold lastn. rewrite length_app, skipn_app.
  replace (List.length b + List.length es - 20 - List.length b)%nat
    with (List.length es - 20)%nat by lia.
  rewrite skipn_all2 by lia. reflexivity.
Qed.

Lemma fold_appendHistory_from_witness :
  (List.length [numbered 1; numbered 2] <= 20)%nat
  /\ fold_left appendHistory (map numbered (seq 3 20)) [numbered 1; numbered 2]
     = lastn 20 (map numbered (seq 3 20)).
Proof.
  split; [cbn; lia|].
  apply (fold_appendHistory_from [numbered 1; numbered 2] (map numbered (seq 3 20)));
    cbn; lia.
Defined.

(** ** Invariants of the session *)

Lemma step_flags (now : string) (e : Event) (rt : Runtime) :
  (isConnected (state (step now e rt)) = isConnected (state rt)
   /\ dataSource (state (step now e rt)) = dataSource (state rt))
  \/ (isConnected (state (step now e rt)) = true
      /\ dataSource (state (step now e rt)) = simulation)
  \/ isConnected (state (step now e rt)) = false.
Proof.
  unfold step. destruct (isConnected (state rt)) eqn:Ec.
  all: destruct e; cbn [handle]; rewrite ?Ec; cbn [negb];
    repeat match goal with
           | |- context [if ?b then _ else _] => destruct b
           end;
    rewrite ?generateRandomManual_eq, ?simulationTick_eq, state_commit;
    cbn; rewrite ?Ec; auto.
Qed.

(** X3: in every reachable state a manual data source goes with a closed
    connection: the component is never connected in manual mode. *)
Theorem manual_implies_disconnected (rt : Runtime) :
  reachable rt ->
  dataSource (state rt) = manual -> isConnected (state rt) = false.
Proof.
  induction 1 as [g now V|rt e now _ IH]; [discriminate|].
  destruct (step_flags now e rt) as [[-> ->]|[[_ ->]| ->]];
    [exact IH|discriminate|reflexivity].
Qed.

Lemma manual_implies_disconnected_witness :
  reachable negative_injection
  /\ dataSource (state negative_injection) = manual
  /\ isConnected (state negative_injection) = false.
Proof.
  assert (R : reachable negative_injection)
    by (apply run_reachable; exact sample_start_reachable).
  split; [exact R|]. split; [reflexivity|].
  apply (manual_implies_disconnected negative_injection R). reflexivity.
Defined.

Lemma step_history_mirror (now : string) (e : Event) (rt : Runtime) :
  (sensorData (state (step now e rt)) = sensorData (state rt)
   /\ dataHistory (state (step now e rt)) = dataHistory (state rt))
  \/ dataHistory (state (step now e rt))
     = appendHistory (dataHistory (state rt))
                     (entry_of now (sensorData (state (step now e rt)))).
Proof.
  unfold step. pose proof (handle_state e rt) as (Hh & Hf & _).
  destruct (handle e rt) as [rt' ch]. cbn [fst snd] in *.
  rewrite state_commit. destruct ch.
  - right. cbn [dataHistory sensorData setDataHistory]. now rewrite Hh.
  - left. split; [now apply Hf|exact Hh].
Qed.

(** X4: in every reachable state the history is not empty and its last
    entry carries the four channels of the current reading. *)
Theorem history_ends_with_current_reading (rt : Runtime) :
  reachable rt ->
  exists (older : list HistoryData) (now : string),
    dataHistory (state rt)
    = (older ++ [entry_of now (sensorData (state rt))])%list.
Proof.
  induction 1 as [g now V|rt e now _ (older & t & IH)].
  - exists [], now. reflexivity.
  - destruct (step_history_mirror now e rt) as [[Es Eh]|Eh].
    + exists older, t. now rewrite Es, Eh.
    + rewrite Eh. rewrite appendHistory_snoc.
      eexists _, now. reflexivity.
Qed.

Lemma history_ends_with_current_reading_witness :
  reachable sample_session
  /\ exists (older : list HistoryData) (now : string),
      dataHistory (state sample_session)
      = (older ++ [entry_of now (sensorData (state sample_session))])%list.
Proof.
  split; [exact sample_session_reachable|].
  exact (history_ends_with_current_reading sample_session sample_session_reachable).
Defined.

(** ** What each event does to the reading and the history *)

Lemma connect_step (now : string) (rt : Runtime) :
  isConnected (state rt) = false ->
  state (step now ConnectClick rt)
  = setDataSource simulation (setIsConnected true (state rt))
  /\ random (step now ConnectClick rt) = random rt.
Proof.
  intros E. unfold step, handle. rewrite E.
  rewrite state_commit, random_commit. split; reflexivity.
Qed.

Lemma live_tick_step (now : string) (id : nat) (rt : Runtime) :
  intervals rt = [id] ->
  state (step now (IntervalFire id) rt)
  = setDataHistory
      (appendHistory (dataHistory (state rt))
         (entry_of now (fst (simulationTick (sensorData (state rt)) (random rt)))))
      (setSensorData (fst (simulationTick (sensorData (state rt)) (random rt)))
                     (state rt)).
Proof.
  intros E. unfold step, handle. rewrite E. cbn [existsb].
  rewrite Nat.eqb_refl. cbn [orb]. rewrite simulationTick_eq.
  rewrite state_commit. reflexivity.
Qed.

(** X5: an event other than an injection or an interval coming due
    (a change of port, model or form field, the randomiser, the two
    connection buttons) leaves the reading and the history as they were;
    so does an interval that is not live; and a change of port or of model
    changes that one field and nothing else, the table of intervals
    included. *)
Theorem reading_kept_by_other_events :
  (forall (now : string) (e : Event) (rt : Runtime),
      replaces_reading e = false ->
      sensorData (state (step now e rt)) = sensorData (state rt)
      /\ dataHistory (state (step now e rt)) = dataHistory (state rt))
  /\ (forall (now : string) (id : nat) (rt : Runtime),
      existsb (Nat.eqb id) (intervals rt) = false ->
      step now (IntervalFire id) rt = rt)
  /\ (forall (now value : string) (rt : Runtime),
      step now (PortChange value) rt
      = with_state (setSelectedPort value (state rt)) rt
      /\ step now (ModelChange value) rt
         = with_state (setSelectedModel value (state rt)) rt).
Proof.
  split; [|split].
  - intros now e rt H. unfold step.
    destruct e; try discriminate; cbn [handle];
      repeat match goal with
             | |- context [if ?b then _ else _] => destruct b
             end;
      rewrite ?generateRandomManual_eq, state_commit; cbn; auto.
  - intros now id rt H. unfold step, handle. rewrite H.
    unfold commit, same_deps. now rewrite !Bool.eqb_reflx.
  - intros now value rt. unfold step, handle, commit, same_deps.
    cbn [state with_state setSelectedPort setSelectedModel isConnected dataSource].
    rewrite !Bool.eqb_reflx. split; reflexivity.
Qed.

(** X6: from a reachable disconnected state, the connect button gives a
    connected state in simulation mode (also from manual mode) with the
    same reading and exactly one live interval; when that interval comes
    due the reading becomes the tick of the former reading on the next
    draws and one entry carrying it is appended to the history. *)
Theorem connect_then_tick (now1 now2 : string) (rt : Runtime) :
  reachable rt -> isConnected (state rt) = false ->
  let rt1 := step now1 ConnectClick rt in
  let next := fst (simulationTick (sensorData (state rt)) (random rt)) in
  isConnected (state rt1) = true
  /\ dataSource (state rt1) = simulation
  /\ sensorData (state rt1) = sensorData (state rt)
  /\ exists id : nat,
      intervals rt1 = [id]
      /\ sensorData (state (step now2 (IntervalFire id) rt1)) = next
      /\ dataHistory (state (step now2 (IntervalFire id) rt1))
         = appendHistory (dataHistory (state rt)) (entry_of now2 next).
Proof.
  intros R E rt1 next.
  destruct (connect_step now1 rt E) as [Es Er].
  assert (R1 : reachable rt1) by (now constructor).
  pose proof (reachable_timer_inv rt1 R1) as I. unfold timer_inv in I.
  fold rt1 in Es, Er.
  assert (Ec : isConnected (state rt1) = true) by (now rewrite Es).
  assert (Ed : dataSource (state rt1) = simulation) by (now rewrite Es).
  assert (Ev : sensorData (state rt1) = sensorData (state rt)) by (now rewrite Es).
  assert (Eh : dataHistory (state rt1) = dataHistory (state rt)) by (now rewrite Es).
  repeat split; try assumption.
  destruct (interval rt1) as [id|].
  - destruct I as (Ei & _). exists id. split; [exact Ei|].
    rewrite (live_tick_step now2 id rt1 Ei).
    cbn [sensorData dataHistory setDataHistory setSensorData].
    rewrite Ev, Eh, Er. split; reflexivity.
  - destruct I as (_ & [H|H]); congruence.
Qed.

Lemma connect_then_tick_witness :
  reachable sample_start /\ isConnected (state sample_start) = false
  /\ isConnected (state (step "00.01" ConnectClick sample_start)) = true.
Proof.
  split; [exact sample_start_reachable|]. split; [reflexivity|].
  exact (proj1 (connect_then_tick "00.01" "00.02" sample_start
                  sample_start_reachable eq_refl)).
Defined.

Lemma or_else_of_Z (n : Z) : (of_Z n || Fin 0)%js = of_Z n.
Proof.
  unfold or_else, of_Z, truthy. destruct (Qeq_bool (inject_Z n) 0) eqn:E;
    [|reflexivity].
  apply Qeq_bool_eq in E. unfold Qeq, inject_Z in E. cbn in E.
  rewrite Z.mul_1_r in E. now subst n.
Qed.



(** X8: an injection repeated without touching the form gives the same
    reading and flags again, and still appends an entry for it: the
    history records every injection, also when the reading is the same. *)
Theorem inject_twice (now1 now2 : string) (rt : Runtime) :
  let rt1 := step now1 InjectClick rt in
  let rt2 := step now2 InjectClick rt1 in
  sensorData (state rt2) = sensorData (state rt1)
  /\ dataSource (state rt2) = dataSource (state rt1)
  /\ isConnected (state rt2) = isConnected (state rt1)
  /\ manualInput (state rt2) = manualInput (state rt)
  /\ dataHistory (state rt2)
     = appendHistory (dataHistory (state rt1))
                     (entry_of now2 (sensorData (state rt1))).
Proof.
  intros rt1 rt2. subst rt2 rt1. rewrite !inject_state.
  repeat split.
Qed.

(** ** Numerals typed in the form *)

Lemma decimal_digit_cases (c : ascii) :
  is_decimal_digit c = true ->
  is_ws c = false
  /\ sign_of [c] = (false, [c])
  /\ Ascii.eqb c "I" = false
  /\ match c with
     | "x"%char | "X"%char | "o"%char | "O"%char | "b"%char | "B"%char => false
     | _ => true
     end = true.
Proof.
  destruct c as [[] [] [] [] [] [] [] []]; intros H; try discriminate H;
    repeat split.
Qed.

Lemma read_digits_uint_pos (d : Decimal.uint) (acc : positive) (c : nat) :
  read_digits 10 (list_ascii_of_string (NilEmpty.string_of_uint d)) (Z.pos acc) c
  = (Z.pos (Pos.of_uint_acc d acc), (c + Decimal.nb_digits d)%nat, []).
Proof.
  revert acc c. induction d; intros acc c;
    cbn [NilEmpty.string_of_uint list_ascii_of_string read_digits
         Decimal.nb_digits Pos.of_uint_acc];
    [f_equal; f_equal; lia|..];
    match goal with
    | |- context [digit_of 10 ?ch] =>
      let v := eval vm_compute in (digit_of 10 ch) in
      change (digit_of 10 ch) with v; cbv iota beta
    end;
    match goal with
    | |- read_digits _ _ ?a _ = _ =>
      match goal with
      | |- _ = (Z.pos (Pos.of_uint_acc _ ?b), _, _) =>
        replace a with (Z.pos b) by lia
      end
    end;
    rewrite IHd; f_equal; f_equal; lia.
Qed.

Lemma read_digits_uint (d : Decimal.uint) (c : nat) :
  read_digits 10 (list_ascii_of_string (NilEmpty.string_of_uint d)) 0 c
  = (Z.of_N (Pos.of_uint d), (c + Decimal.nb_digits d)%nat, []).
Proof.
  revert c. induction d; intros c;
    cbn [NilEmpty.string_of_uint list_ascii_of_string read_digits
         Decimal.nb_digits Pos.of_uint];
    [f_equal; f_equal; lia|..];
    match goal with
    | |- context [digit_of 10 ?ch] =>
      let v := eval vm_compute in (digit_of 10 ch) in
      change (digit_of 10 ch) with v; cbv iota beta
    end;
    cbn [Z.mul Z.add];
    first [ rewrite IHd | rewrite read_digits_uint_pos ];
    cbn [Z.of_N]; f_equal; f_equal; lia.
Qed.

Lemma uint_chars_digits (d : Decimal.uint) :
  forallb is_decimal_digit (list_ascii_of_string (NilEmpty.string_of_uint d)) = true.
Proof.
  induction d; cbn [NilEmpty.string_of_uint list_ascii_of_string forallb];
    [reflexivity|..]; rewrite IHd; reflexivity.
Qed.

Lemma trim_left_head (c : ascii) (l : list ascii) :
  is_ws c = false -> trim_left (c :: l) = c :: l.
Proof. intros H. cbn. now rewrite H. Qed.

Lemma trim_no_ws (l : list ascii) :
  forallb (fun c => negb (is_ws c)) l = true -> trim l = l.
Proof.
  intros H. unfold trim.
  assert (T : forall k, forallb (fun c => negb (is_ws c)) k = true ->
                        trim_left k = k).
  { intros [|c k] Hk; [reflexivity|]. cbn in Hk. apply andb_prop in Hk.
    apply trim_left_head. destruct (is_ws c); [destruct Hk; discriminate|reflexivity]. }
  rewrite (T l H). rewrite T; [apply rev_involutive|].
  rewrite forallb_forall in *. intros c Hc. apply H. now apply in_rev.
Qed.

Lemma digits_not_ws (l : list ascii) :
  forallb is_decimal_digit l = true ->
  forallb (fun c => negb (is_ws c)) l = true.
Proof.
  rewrite !forallb_forall. intros H c Hc.
  destruct (decimal_digit_cases c (H c Hc)) as [-> _]. reflexivity.
Qed.

Lemma unsigned_decimal_uint (d : Decimal.uint) :
  d <> Decimal.Nil ->
  unsigned_decimal (list_ascii_of_string (NilEmpty.string_of_uint d))
  = of_Z (Z.of_N (Pos.of_uint d)).
Proof.
  intros Hd. unfold unsigned_decimal.
  rewrite string_of_list_ascii_of_string.
  assert (E : String.eqb (NilEmpty.string_of_uint d) "Infinity" = false)
    by (destruct d; [contradiction|reflexivity..]).
  rewrite E, read_digits_uint. cbn [Nat.add].
  assert (N : (Decimal.nb_digits d + 0 =? 0)%nat = false)
    by (destruct d; [contradiction|reflexivity..]).
  rewrite N. cbn [exponent]. unfold scale, of_Z. cbn [Z.of_nat Z.sub Z.opp Z.leb Z.compare Z.pow].
  now rewrite Z.mul_1_r.
Qed.

Lemma non_decimal_uint (d : Decimal.uint) :
  non_decimal (list_ascii_of_string (NilEmpty.string_of_uint d)) = None.
Proof.
  destruct d as [|d|d|d|d|d|d|d|d|d|d]; try reflexivity.
  destruct d; reflexivity.
Qed.

Lemma StringToNumber_nonempty (str : string) (c : ascii) (l : list ascii) :
  trim (list_ascii_of_string str) = c :: l ->
  StringToNumber str
  = match non_decimal (c :: l) with
    | Some v => v
    | None =>
      let (minus, r) := sign_of (c :: l) in
      let v := unsigned_decimal r in
      if minus then neg v else v
    end.
Proof. unfold StringToNumber. now intros ->. Qed.

Lemma StringToNumber_uint (d : Decimal.uint) :
  d <> Decimal.Nil ->
  StringToNumber (NilEmpty.string_of_uint d) = of_Z (Z.of_N (Pos.of_uint d))
  /\ StringToNumber (String "-" (NilEmpty.string_of_uint d))
     = neg (of_Z (Z.of_N (Pos.of_uint d))).
Proof.
  intros Hd.
  pose proof (digits_not_ws _ (uint_chars_digits d)) as W.
  pose proof (unsigned_decimal_uint d Hd) as U.
  pose proof (non_decimal_uint d) as ND.
  pose proof (uint_chars_digits d) as D.
  destruct (list_ascii_of_string (NilEmpty.string_of_uint d)) as [|c l] eqn:El;
    [destruct d; [contradiction|discriminate El..]|].
  split.
  - rewrite (StringToNumber_nonempty _ c l)
      by (rewrite El; now apply trim_no_ws).
    rewrite ND. cbn [forallb] in D. apply andb_prop in D. destruct D as [Dc _].
    destruct (decimal_digit_cases c Dc) as (_ & Sg & _).
    assert (Sg' : sign_of (c :: l) = (false, c :: l)).
    { revert Sg. unfold sign_of.
      destruct c as [[] [] [] [] [] [] [] []]; intros Sg; try discriminate Sg;
        reflexivity. }
    rewrite Sg'. exact U.
  - rewrite (StringToNumber_nonempty _ "-"%char (c :: l)).
    + cbn [non_decimal sign_of]. now rewrite U.
    + cbn [list_ascii_of_string]. rewrite El.
      apply trim_no_ws. cbn [forallb] in *. now rewrite W.
Qed.

Lemma StringToNumber_numeral (z : Z) : StringToNumber (numeral z) = of_Z z.
Proof.
  unfold numeral, digits.
  assert (NN : forall n : N, N.to_uint n <> Decimal.Nil).
  { intros [|p]; [discriminate|apply DecimalPos.Unsigned.to_uint_nonnil]. }
  assert (V : forall n : N, Pos.of_uint (N.to_uint n) = n)
    by (intros n; apply DecimalN.Unsigned.of_to).
  destruct (z <? 0)%Z eqn:E.
  - apply Z.ltb_lt in E.
    rewrite (proj2 (StringToNumber_uint _ (NN _))), V.
    rewrite Z2N.id by lia. unfold neg, of_Z. f_equal.
    unfold Qopp, inject_Z. cbn. now rewrite Z.opp_involutive.
  - apply Z.ltb_ge in E.
    rewrite (proj1 (StringToNumber_uint _ (NN _))), V.
    now rewrite Z2N.id by lia.
Qed.

(** X9: typing the decimal numeral of an integer of magnitude at most
    [2^53] (the integers a number holds exactly) into a form field and
    injecting sets the channel of that field to this integer, negative
    ones included; the other three channels are what an injection without
    the typing would have given. *)
Theorem type_then_inject (now1 now2 : string) (f : FieldName) (z : Z)
  (rt : Runtime) :
  (Z.abs z <= 2 ^ 53)%Z ->
  let rt2 := step now2 InjectClick (step now1 (InputChange f (numeral z)) rt) in
  channel f (sensorData (state rt2)) = of_Z z
  /\ (forall f' : FieldName,
      f' <> f ->
      channel f' (sensorData (state rt2))
      = channel f' (sensorData (state (step now2 InjectClick rt)))).
Proof.
  intros _ rt2. subst rt2. rewrite !inject_state.
  assert (S1 : state (step now1 (InputChange f (numeral z)) rt)
               = setManualInput
                   (update_field f (Str (numeral z)) (manualInput (state rt)))
                   (state rt)).
  { unfold step, handle. now rewrite state_commit. }
  rewrite S1. split.
  - destruct f; cbn; rewrite StringToNumber_numeral; apply or_else_of_Z.
  - intros f' Hf. destruct f, f'; try congruence; reflexivity.
Qed.

Lemma type_then_inject_witness :
  (Z.abs (-5) <= 2 ^ 53)%Z
  /\ channel f_mq3
       (sensorData
          (state (step "00.02" InjectClick
                       (step "00.01" (InputChange f_mq3 (numeral (-5))) sample_start))))
     = of_Z (-5).
Proof.
  split; [cbn; lia|].
  apply (type_then_inject "00.01" "00.02" f_mq3 (-5) sample_start). cbn. lia.
Defined.

(** ** More on the verdict *)

Section VerdictFacts.

Variable toString_large : Q -> string.

Local Notation "'classify'" := (getVerdict toString_large).







End VerdictFacts.



(** ** Runs without injection *)






(** ** The gauge *)

Lemma div_Fin_pos (v m : Q) : 0 < m -> (Fin v / Fin m)%js = Fin (v / m).
Proof.
  intros H. unfold div. destruct (Qcompare_spec m 0) as [E|E|E];
    [rewrite E in H; lra|lra|reflexivity].
Qed.

Lemma Qdiv_sign (v m : Q) :
  0 < m ->
  (0 <= v <-> 0 <= v / m) /\ (v < m <-> v / m < 1) /\ (m <= v <-> 1 <= v / m).
Proof.
  intros H. set (d := v / m).
  assert (E : v == d * m) by (unfold d; field; lra).
  clearbody d.
  assert (P : forall x y : Q, x < y -> x * m < y * m)
    by (intros x y K; apply Qmult_lt_compat_r; assumption).
  assert (P' : forall x y : Q, x <= y -> x * m <= y * m)
    by (intros x y K; apply Qmult_le_compat_r; lra).
  repeat split; intros K.
  - destruct (Qlt_le_dec d 0) as [L|L]; [|exact L].
    apply P in L. lra.
  - pose proof (P' 0 d K). lra.
  - destruct (Qlt_le_dec d 1) as [L|L]; [exact L|].
    apply P' in L. lra.
  - pose proof (P d 1 K). lra.
  - destruct (Qlt_le_dec d 1) as [L|L]; [|exact L].
    apply P in L. lra.
  - pose proof (P' 1 d K). lra.
Qed.

(** X16: the right border of the arc is never green: it is transparent
    exactly when the value is not above 250, and otherwise has the colour
    of the top border, which is then amber or red; the top border is
    green exactly when the value is below 150. *)
Theorem gauge_right_border (value : number) (max : option number) (l : string) :
  let g := GaugeChart value max l in
  borderRightColor g <> "#10B981"
  /\ (borderRightColor g = "transparent" <-> (value > Fin 250)%js = false)
  /\ ((value > Fin 250)%js = true ->
      borderRightColor g = borderTopColor g
      /\ (borderTopColor g = "#F59E0B" \/ borderTopColor g = "#EF4444"))
  /\ (borderTopColor g = "#10B981" <-> (value < Fin 150)%js = true).
Proof.
  intros g. subst g. unfold GaugeChart, getColor.
  cbn [borderRightColor borderTopColor].
  destruct value as [| | |q]; cbn [gt lt];
    try (repeat split; intros; try discriminate; auto; fail).
  destruct (Qltb 250 q) eqn:E250; destruct (Qltb q 150) eqn:E150;
    destruct (Qltb q 300) eqn:E300;
    try (apply Qltb_lt in E250; apply Qltb_lt in E150; lra);
    repeat split; intros; try discriminate; auto.
Qed.

Section GaugeAndVerdict.

Variable toString_large : Q -> string.

Local Notation "'classify'" := (getVerdict toString_large).


End GaugeAndVerdict.

(** * The computed values in binary64 *)

(** ** Rounding to binary64 *)

Section Rounding.

Import B64.

Lemma two_pos (k : Z) : 0 < 2 ^ k.
Proof. apply Qpower_0_lt. reflexivity. Qed.

Lemma Zpow2_Q (k : Z) : (0 <= k)%Z -> inject_Z (2 ^ k) == 2 ^ k.
Proof. intros H. rewrite Zpower_Qpower by exact H. reflexivity. Qed.

Lemma ilog2_spec (a : Q) : 0 < a -> 2 ^ ilog2 a <= a /\ a < 2 ^ (ilog2 a + 1).
Proof.
  intros Ha. destruct a as [n d]. unfold ilog2. cbn [Qnum Qden].
  assert (Hn : (0 < n)%Z) by (unfold Qlt in Ha; cbn in Ha; lia).
  pose proof (Z.log2_spec n Hn) as [N1 N2].
  pose proof (Z.log2_spec (Z.pos d) (Pos2Z.is_pos d)) as [D1 D2].
  set (ln := Z.log2 n) in *. set (ld := Z.log2 (Z.pos d)) in *.
  assert (Ln : (0 <= ln)%Z) by apply Z.log2_nonneg.
  assert (Ld : (0 <= ld)%Z) by apply Z.log2_nonneg.
  assert (E : n # d == inject_Z n / inject_Z (Z.pos d)) by apply Qmake_Qdiv.
  assert (Dp : 0 < inject_Z (Z.pos d)) by reflexivity.
  (* bounds in Q *)
  assert (QN1 : 2 ^ ln <= inject_Z n) by (rewrite <- Zpow2_Q by lia; now rewrite <- Zle_Qle).
  assert (QN2 : inject_Z n < 2 ^ (ln + 1)) by (rewrite <- Zpow2_Q by lia; now rewrite <- Zlt_Qlt; replace (ln + 1)%Z with (Z.succ ln) by lia).
  assert (QD1 : 2 ^ ld <= inject_Z (Z.pos d)) by (rewrite <- Zpow2_Q by lia; now rewrite <- Zle_Qle).
  assert (QD2 : inject_Z (Z.pos d) < 2 ^ (ld + 1)) by (rewrite <- Zpow2_Q by lia; now rewrite <- Zlt_Qlt; replace (ld + 1)%Z with (Z.succ ld) by lia).
  assert (T : ~ 2 == 0) by discriminate.
  assert (Up : n # d < 2 ^ (ln - ld + 1)).
  { rewrite E. apply Qlt_shift_div_r; [exact Dp|].
    apply Qlt_le_trans with (2 ^ (ln + 1)); [exact QN2|].
    replace (ln + 1)%Z with ((ln - ld + 1) + ld)%Z by lia.
    rewrite Qpower_plus by exact T.
    apply Qmult_le_l; [apply two_pos|exact QD1]. }
  assert (Lo : 2 ^ (ln - ld - 1) < n # d).
  { rewrite E. apply Qlt_shift_div_l; [exact Dp|].
    apply Qlt_le_trans with (2 ^ ln); [|exact QN1].
    replace ln with ((ln - ld - 1) + (ld + 1))%Z at 2 by lia.
    rewrite Qpower_plus by exact T.
    apply Qmult_lt_l; [apply two_pos|exact QD2]. }
  destruct (Qle_bool (2 ^ (ln - ld)) (n # d)) eqn:B.
  - apply Qle_bool_iff in B. split; [exact B|exact Up].
  - split; [apply Qlt_le_weak; exact Lo|].
    replace (ln - ld - 1 + 1)%Z with (ln - ld)%Z by lia.
    apply Qnot_le_lt. intros C. apply Qle_bool_iff in C. congruence.
Qed.

Lemma ilog2_unique (a : Q) (k : Z) : 2 ^ k <= a -> a < 2 ^ (k + 1) -> ilog2 a = k.
Proof.
  intros H1 H2.
  assert (Ha : 0 < a) by (apply Qlt_le_trans with (2 ^ k); [apply two_pos|exact H1]).
  destruct (ilog2_spec a Ha) as [S1 S2].
  assert (A : (ilog2 a < k + 1)%Z).
  { apply (Qpower_lt_compat_l_inv 2); [|reflexivity].
    apply Qle_lt_trans with a; assumption. }
  assert (B : (k < ilog2 a + 1)%Z).
  { apply (Qpower_lt_compat_l_inv 2); [|reflexivity].
    apply Qle_lt_trans with a; assumption. }
  lia.
Qed.

Lemma ilog2_mono (a b : Q) : 0 < a -> a <= b -> (ilog2 a <= ilog2 b)%Z.
Proof.
  intros Ha Hab.
  assert (Hb : 0 < b) by (apply Qlt_le_trans with a; assumption).
  destruct (ilog2_spec a Ha) as [A1 _]. destruct (ilog2_spec b Hb) as [_ B2].
  assert (L : (ilog2 a < ilog2 b + 1)%Z).
  { apply (Qpower_lt_compat_l_inv 2); [|reflexivity].
    apply Qle_lt_trans with a; [exact A1|].
    apply Qle_lt_trans with b; assumption. }
  lia.
Qed.

(** rne *)
Lemma Qfloor_bounds (x : Q) : inject_Z (Qfloor x) <= x /\ x < inject_Z (Qfloor x) + 1.
Proof.
  split; [apply Qfloor_le|].
  pose proof (Qlt_floor x) as H. rewrite inject_Z_plus in H. exact H.
Qed.

Lemma rne_cases (x : Q) :
  (rne x = Qfloor x /\ x - inject_Z (Qfloor x) <= 1 # 2)
  \/ (rne x = (Qfloor x + 1)%Z /\ (1 # 2) <= x - inject_Z (Qfloor x)).
Proof.
  unfold rne. destruct (Qcompare_spec (x - inject_Z (Qfloor x)) (1 # 2)) as [E|E|E].
  - destruct (Z.even (Qfloor x)); [left|right]; split; try reflexivity; rewrite E; apply Qle_refl.
  - left. split; [reflexivity|apply Qlt_le_weak; exact E].
  - right. split; [reflexivity|apply Qlt_le_weak; exact E].
Qed.


Lemma rne_mono (x y : Q) : x <= y -> (rne x <= rne y)%Z.
Proof.
  intros H.
  pose proof (Qfloor_resp_le x y H) as F.
  destruct (Qfloor_bounds x) as [X1 X2]. destruct (Qfloor_bounds y) as [Y1 Y2].
  destruct (Z.eq_dec (Qfloor x) (Qfloor y)) as [E|E].
  - unfold rne. rewrite E.
    destruct (Qcompare_spec (x - inject_Z (Qfloor y)) (1 # 2)) as [A|A|A];
      destruct (Qcompare_spec (y - inject_Z (Qfloor y)) (1 # 2)) as [B|B|B];
      try destruct (Z.even (Qfloor y)); first [lia | exfalso; lra].
  - assert (L : (Qfloor x + 1 <= Qfloor y)%Z) by lia.
    destruct (rne_cases x) as [[-> _]|[-> _]];
      destruct (rne_cases y) as [[-> _]|[-> _]]; lia.
Qed.

Lemma rne_inject (k : Z) : rne (inject_Z k) = k.
Proof.
  unfold rne. rewrite Qfloor_Z.
  assert (E : (inject_Z k - inject_Z k ?= 1 # 2) = Lt).
  { apply Qlt_alt. setoid_replace (inject_Z k - inject_Z k) with 0 by ring.
    reflexivity. }
  now rewrite E.
Qed.

Lemma rne_comp (x y : Q) : x == y -> rne x = rne y.
Proof.
  intros E. apply Z.le_antisymm; apply rne_mono; rewrite E; apply Qle_refl.
Qed.


Lemma round_pos_eq (a : Q) : round_pos a = inject_Z (rne (a / 2 ^ expo a)) * 2 ^ expo a.
Proof. reflexivity. Qed.

Lemma round_pos_nonneg (a : Q) : 0 < a -> 0 <= round_pos a.
Proof.
  intros Ha. rewrite round_pos_eq.
  apply Qmult_le_0_compat; [|apply Qlt_le_weak, two_pos].
  change 0 with (inject_Z 0). rewrite <- Zle_Qle.
  rewrite <- (rne_inject 0). apply rne_mono.
  apply Qle_shift_div_l; [apply two_pos|].
  change (inject_Z 0) with 0. rewrite Qmult_0_l. apply Qlt_le_weak. exact Ha.
Qed.

Lemma scaled_lt (a : Q) : 0 < a -> a / 2 ^ expo a < 2 ^ 53.
Proof.
  intros Ha. destruct (ilog2_spec a Ha) as [_ S2].
  apply Qlt_shift_div_r; [apply two_pos|].
  rewrite <- Qpower_plus by discriminate.
  apply Qlt_le_trans with (2 ^ (ilog2 a + 1)); [exact S2|].
  apply Qpower_le_compat_l; [unfold expo; lia|discriminate].
Qed.

Lemma scaled_ge (a : Q) :
  0 < a -> (-1074 < expo a)%Z -> 2 ^ 52 <= a / 2 ^ expo a.
Proof.
  intros Ha He. destruct (ilog2_spec a Ha) as [S1 _].
  apply Qle_shift_div_l; [apply two_pos|].
  rewrite <- Qpower_plus by discriminate.
  replace (52 + expo a)%Z with (ilog2 a) by (unfold expo in *; lia).
  exact S1.
Qed.

Lemma round_pos_mono (a b : Q) : 0 < a -> a <= b -> round_pos a <= round_pos b.
Proof.
  intros Ha Hab.
  assert (Hb : 0 < b) by (apply Qlt_le_trans with a; assumption).
  pose proof (ilog2_mono a b Ha Hab) as L.
  assert (E : (expo a <= expo b)%Z) by (unfold expo; lia).
  rewrite !round_pos_eq.
  destruct (Z.eq_dec (expo a) (expo b)) as [Eq|Ne].
  - rewrite Eq. apply Qmult_le_compat_r; [|apply Qlt_le_weak, two_pos].
    rewrite <- Zle_Qle. apply rne_mono.
    apply Qmult_le_compat_r; [exact Hab|].
    apply Qlt_le_weak, Qinv_lt_0_compat, two_pos.
  - assert (Lt : (expo a + 1 <= expo b)%Z) by lia.
    apply Qle_trans with (2 ^ 53 * 2 ^ expo a).
    + apply Qmult_le_compat_r; [|apply Qlt_le_weak, two_pos].
      rewrite <- (Zpow2_Q 53) by lia. rewrite <- Zle_Qle.
      rewrite <- (rne_inject (2 ^ 53)). apply rne_mono.
      rewrite Zpow2_Q by lia. apply Qlt_le_weak, scaled_lt. exact Ha.
    + apply Qle_trans with (2 ^ 52 * 2 ^ expo b).
      * rewrite <- !Qpower_plus by discriminate.
        apply Qpower_le_compat_l; [lia|discriminate].
      * apply Qmult_le_compat_r; [|apply Qlt_le_weak, two_pos].
        rewrite <- (Zpow2_Q 52) by lia. rewrite <- Zle_Qle.
        rewrite <- (rne_inject (2 ^ 52)). apply rne_mono.
        rewrite Zpow2_Q by lia. apply scaled_ge; [exact Hb|].
        unfold expo in *. lia.
Qed.

Lemma rnd_mono (x y : Q) : x <= y -> rnd x <= rnd y.
Proof.
  intros H. unfold rnd.
  destruct (Qcompare_spec x 0) as [X|X|X]; destruct (Qcompare_spec y 0) as [Y|Y|Y];
    try (exfalso; lra).
  - apply Qle_refl.
  - apply round_pos_nonneg. exact Y.
  - pose proof (round_pos_nonneg (- x)). lra.
  - apply Qopp_le_compat. apply round_pos_mono; lra.
  - pose proof (round_pos_nonneg (- x)). pose proof (round_pos_nonneg y). lra.
  - apply round_pos_mono; assumption.
Qed.

Lemma rnd_comp (x y : Q) : x == y -> rnd x == rnd y.
Proof.
  intros E. apply Qle_antisym; apply rnd_mono; rewrite E; apply Qle_refl.
Qed.




(** A positive value that rounding leaves alone is a multiple of [2^e]. *)
Lemma representable_below_one (x : Q) :
  0 <= x -> x < 1 -> rnd x == x -> x <= 1 - 2 ^ (-53).
Proof.
  intros H0 H1 R.
  destruct (Qlt_le_dec x (1 # 2)) as [S|S].
  - apply Qle_trans with (1 # 2); [apply Qlt_le_weak; exact S|]. 
    apply Qle_bool_iff. vm_compute. reflexivity.
  - assert (Hx : 0 < x) by lra.
    assert (L : ilog2 x = (-1)%Z) by (apply ilog2_unique; cbn; lra).
    assert (E : expo x = (-53)%Z) by (unfold expo; rewrite L; reflexivity).
    unfold rnd in R. assert (C : (x ?= 0) = Gt) by (apply Qgt_alt; exact Hx).
    rewrite C, round_pos_eq, E in R.
    set (k := rne (x / 2 ^ (-53))) in *.
    assert (K : (k < 2 ^ 53)%Z).
    { rewrite Zlt_Qlt. rewrite Zpow2_Q by lia.
      apply Qmult_lt_r with (2 ^ (-53)); [apply two_pos|].
      rewrite R. setoid_replace (2 ^ 53 * 2 ^ (-53)) with 1 by reflexivity.
      exact H1. }
    assert (K' : (k <= 2 ^ 53 - 1)%Z) by lia.
    rewrite <- R. rewrite Zle_Qle in K'.
    apply Qle_trans with (inject_Z (2 ^ 53 - 1) * 2 ^ (-53)).
    + apply Qmult_le_compat_r; [exact K'|apply Qlt_le_weak, two_pos].
    + apply Qle_bool_iff. vm_compute. reflexivity.
Qed.

End Rounding.

Section Grid.

Import B64.

(** The binary64 number after [c = k * 2^(j - 52)] of [[2^j, 2^(j+1))]. *)
Lemma representable_above (x c : Q) (j k : Z) :
  representable x -> (-1022 <= j)%Z ->
  2 ^ j <= c -> c < 2 ^ (j + 1) -> c == inject_Z k * 2 ^ (j - 52) ->
  c < x -> c + 2 ^ (j - 52) <= x.
Proof.
  intros R Hj L U K H.
  pose proof (two_pos (j - 52)) as P. pose proof (two_pos j) as Pj.
  assert (C1 : c + 2 ^ (j - 52) == inject_Z (k + 1) * 2 ^ (j - 52)).
  { rewrite inject_Z_plus, K. change (inject_Z 1) with 1. ring. }
  rewrite C1.
  destruct (Qlt_le_dec x (2 ^ (j + 1))) as [S|S].
  - assert (Hx : 0 < x) by lra.
    assert (Lx : ilog2 x = j) by (apply ilog2_unique; lra).
    assert (E : expo x = (j - 52)%Z) by (unfold expo; rewrite Lx; lia).
    unfold representable, rnd in R.
    assert (C : (x ?= 0) = Gt) by (apply Qgt_alt; exact Hx).
    rewrite C, round_pos_eq, E in R.
    set (n := rne (x / 2 ^ (j - 52))) in *.
    assert (N : (k < n)%Z).
    { rewrite Zlt_Qlt. apply Qmult_lt_r with (2 ^ (j - 52)); [exact P|].
      rewrite <- K, R. exact H. }
    rewrite <- R. apply Qmult_le_compat_r; [|lra].
    rewrite <- Zle_Qle. lia.
  - apply Qle_trans with (2 ^ (j + 1)); [|exact S].
    assert (T : 2 ^ (j + 1) == inject_Z (2 ^ 53) * 2 ^ (j - 52)).
    { rewrite Zpow2_Q by lia. rewrite <- Qpower_plus by discriminate.
      replace (53 + (j - 52))%Z with (j + 1)%Z by lia. reflexivity. }
    rewrite T. apply Qmult_le_compat_r; [|lra].
    rewrite <- Zle_Qle.
    assert (N : (k < 2 ^ 53)%Z).
    { rewrite Zlt_Qlt. apply Qmult_lt_r with (2 ^ (j - 52)); [exact P|].
      rewrite <- K, <- T. exact U. }
    lia.
Qed.

End Grid.

(** ** Agreement with the kernel's binary64

    On the table of reference values, which holds the literals of the
    component and numbers at the ends of the range, rounding a decimal
    gives the kernel's number, and the four operations of [B64] give on
    every pair what the kernel's operations give, overflow and gradual
    underflow included. *)

Example reference_values_rounded :
  all_same (map of_float reference_values) reference_literals = true.
Proof. vm_compute. reflexivity. Qed.

Example kernel_agreement :
  forallb (fun x => forallb (agree x) reference_values) reference_values = true.
Proof. vm_compute. reflexivity. Qed.

(** ** Operations that stay in range *)

(** Closes a comparison or an equation between constants by evaluation. *)
Ltac b64_const := vm_compute; first [reflexivity | discriminate | intro; discriminate].

(** An operation whose exact result lies between two binary64 numbers
    returns the rounded result, which lies between them too. *)

Lemma round64_range (x lo hi : Q) :
  lo <= x <= hi -> B64.representable lo -> B64.representable hi ->
  - 2 ^ 1024 < lo -> hi < 2 ^ 1024 ->
  B64.round64 x = Fin (B64.rnd x) /\ lo <= B64.rnd x <= hi.
Proof.
  intros [L H] Rl Rh A B.
  pose proof (rnd_mono _ _ L) as L'. pose proof (rnd_mono _ _ H) as H'.
  unfold B64.representable in Rl, Rh. rewrite Rl in L'. rewrite Rh in H'.
  unfold B64.round64. set (M := 2 ^ 1024) in *.
  destruct (Qle_bool M (B64.rnd x)) eqn:E1.
  { apply Qle_bool_iff in E1. lra. }
  destruct (Qle_bool (B64.rnd x) (- M)) eqn:E2.
  { apply Qle_bool_iff in E2. lra. }
  split; [reflexivity|lra].
Qed.

Lemma round64_at_least (x lo : Q) :
  lo <= x -> B64.representable lo -> - 2 ^ 1024 < lo ->
  at_least lo (B64.round64 x).
Proof.
  intros L Rl A. pose proof (rnd_mono _ _ L) as L'.
  unfold B64.representable in Rl. rewrite Rl in L'.
  unfold B64.round64. set (M := 2 ^ 1024) in *.
  destruct (Qle_bool M (B64.rnd x)) eqn:E1; [exact I|].
  destruct (Qle_bool (B64.rnd x) (- M)) eqn:E2.
  { apply Qle_bool_iff in E2. lra. }
  exact L'.
Qed.

Lemma add64_range (a b lo hi : Q) :
  lo <= a + b <= hi -> B64.representable lo -> B64.representable hi ->
  - 2 ^ 1024 < lo -> hi < 2 ^ 1024 ->
  Fin a +~ Fin b = Fin (B64.rnd (a + b)) /\ lo <= B64.rnd (a + b) <= hi.
Proof. apply round64_range. Qed.

Lemma sub64_range (a b lo hi : Q) :
  lo <= a - b <= hi -> B64.representable lo -> B64.representable hi ->
  - 2 ^ 1024 < lo -> hi < 2 ^ 1024 ->
  Fin a -~ Fin b = Fin (B64.rnd (a - b)) /\ lo <= B64.rnd (a - b) <= hi.
Proof. apply round64_range. Qed.

Lemma mul64_range (a b lo hi : Q) :
  lo <= a * b <= hi -> B64.representable lo -> B64.representable hi ->
  - 2 ^ 1024 < lo -> hi < 2 ^ 1024 ->
  Fin a *~ Fin b = Fin (B64.rnd (a * b)) /\ lo <= B64.rnd (a * b) <= hi.
Proof. apply round64_range. Qed.

Lemma Math_max_0_pos (q : Q) : 0 < q -> Math_max (Fin 0) (Fin q) = Fin q.
Proof.
  intros H. cbn. assert (E : Qltb 0 q = true) by (apply Qltb_lt; exact H).
  now rewrite E.
Qed.

(** ** The simulation tick in binary64 *)

(** The tick written out on the five values it draws. *)
Lemma simulationTick64_eq (prev : SensorData) (g : RNG) :
  B64.simulationTick prev g
  = ({| mq3 := Math_max (Fin 0)
                 (mq3 prev
                  +~ (if (Fin (g 0%nat) > B64.lit 0.85)%js
                      then (if (mq3 prev < Fin 200)%js then Fin 150 else Fin (-100))
                      else Fin (g 1%nat) *~ Fin 40 -~ Fin 20));
        mq4 := Math_max (Fin 0) (Fin 200 +~ (Fin (g 2%nat) *~ Fin 20 -~ Fin 10));
        mq8 := Math_max (Fin 0) (Fin 150 +~ (Fin (g 3%nat) *~ Fin 15 -~ Fin 7.5));
        mq135 := Math_max (Fin 0) (Fin 300 +~ (Fin (g 4%nat) *~ Fin 30 -~ Fin 15)) |},
     fun n => g (5 + n)%nat).
Proof. reflexivity. Qed.

(** [Math.max(0, c + (u * w - h))] on a draw [u], for the three channels. *)
Lemma secondary_mq4 (u : Q) :
  0 <= u <= 1 ->
  exists q : Q,
    Fin 200 +~ (Fin u *~ Fin 20 -~ Fin 10) = Fin q /\ 190 <= q <= 210.
Proof.
  intros Hu.
  destruct (mul64_range u 20 0 20) as [E1 B1]; [lra|b64_const..|].
  rewrite E1.
  destruct (sub64_range (B64.rnd (u * 20)) 10 (-10) 10) as [E2 B2]; [lra|b64_const..|].
  rewrite E2.
  destruct (add64_range 200 (B64.rnd (B64.rnd (u * 20) - 10)) 190 210) as [E3 B3];
    [lra|b64_const..|].
  rewrite E3. eexists. split; [reflexivity|exact B3].
Qed.

Lemma secondary_mq8 (u : Q) :
  0 <= u <= 1 ->
  exists q : Q,
    Fin 150 +~ (Fin u *~ Fin 15 -~ Fin 7.5) = Fin q /\ 142.5 <= q <= 157.5.
Proof.
  intros Hu.
  destruct (mul64_range u 15 0 15) as [E1 B1]; [lra|b64_const..|].
  rewrite E1.
  destruct (sub64_range (B64.rnd (u * 15)) 7.5 (-7.5) 7.5) as [E2 B2]; [lra|b64_const..|].
  rewrite E2.
  destruct (add64_range 150 (B64.rnd (B64.rnd (u * 15) - 7.5)) 142.5 157.5) as [E3 B3];
    [lra|b64_const..|].
  rewrite E3. eexists. split; [reflexivity|exact B3].
Qed.

Lemma secondary_mq135 (u : Q) :
  0 <= u <= 1 ->
  exists q : Q,
    Fin 300 +~ (Fin u *~ Fin 30 -~ Fin 15) = Fin q /\ 285 <= q <= 315.
Proof.
  intros Hu.
  destruct (mul64_range u 30 0 30) as [E1 B1]; [lra|b64_const..|].
  rewrite E1.
  destruct (sub64_range (B64.rnd (u * 30)) 15 (-15) 15) as [E2 B2]; [lra|b64_const..|].
  rewrite E2.
  destruct (add64_range 300 (B64.rnd (B64.rnd (u * 30) - 15)) 285 315) as [E3 B3];
    [lra|b64_const..|].
  rewrite E3. eexists. split; [reflexivity|exact B3].
Qed.

Lemma valid64_valid (g : RNG) : B64.valid g -> valid g.
Proof. intros V n. apply V. Qed.

Lemma dyadic_draws_valid : B64.valid dyadic_draws.
Proof.
  intros [|[|[|n]]]; (split; [split|]); b64_const.
Qed.

(** The same between two bounds that need not be binary64 numbers. *)
Lemma round64_between (x lo hi lo' hi' : Q) :
  lo <= x <= hi -> lo' <= B64.rnd lo -> B64.rnd hi <= hi' ->
  - 2 ^ 1024 < lo' -> hi' < 2 ^ 1024 ->
  B64.round64 x = Fin (B64.rnd x) /\ lo' <= B64.rnd x <= hi'.
Proof.
  intros [L H] Rl Rh A B.
  pose proof (rnd_mono _ _ L) as L'. pose proof (rnd_mono _ _ H) as H'.
  unfold B64.round64. set (M := 2 ^ 1024) in *.
  destruct (Qle_bool M (B64.rnd x)) eqn:E1.
  { apply Qle_bool_iff in E1. lra. }
  destruct (Qle_bool (B64.rnd x) (- M)) eqn:E2.
  { apply Qle_bool_iff in E2. lra. }
  split; [reflexivity|lra].
Qed.

(** The literal 0.85 and the draws: no binary64 number lies between the
    literal as the program holds it and 0.85. *)
Lemma spike_threshold (u : Q) :
  B64.representable u ->
  (Fin u > B64.lit 0.85)%js = true <-> 0.85 < u.
Proof.
  intros R.
  assert (E : B64.lit 0.85 = Fin (B64.rnd 0.85)) by (vm_compute; reflexivity).
  rewrite E, gt_Fin.
  assert (K : B64.rnd 0.85 <= 0.85) by b64_const.
  split; intros H.
  - destruct (Qlt_le_dec 0.85 u) as [G|G]; [exact G|].
    apply rnd_mono in G. unfold B64.representable in R. rewrite R in G. lra.
  - lra.
Qed.



(** C10, as amended: for draws that are binary64 numbers of [[0, 1)] the
    three secondary channels of a tick lie in the closed intervals
    [[190, 210]], [[142.5, 157.5]] and [[285, 315]]; the clamp at zero
    returns its argument unchanged, and each channel is strictly
    positive. *)
Theorem C10_secondary_channels_closed_range (prev : SensorData) (g : RNG) :
  B64.valid g ->
  let next := fst (B64.simulationTick prev g) in
  exists q4 q8 q135 : Q,
    mq4 next = Fin q4 /\ mq8 next = Fin q8 /\ mq135 next = Fin q135
    /\ 190 <= q4 <= 210 /\ 142.5 <= q8 <= 157.5 /\ 285 <= q135 <= 315
    /\ Fin q4 = Fin 200 +~ (Fin (g 2%nat) *~ Fin 20 -~ Fin 10)
    /\ Fin q8 = Fin 150 +~ (Fin (g 3%nat) *~ Fin 15 -~ Fin 7.5)
    /\ Fin q135 = Fin 300 +~ (Fin (g 4%nat) *~ Fin 30 -~ Fin 15)
    /\ 0 < q4 /\ 0 < q8 /\ 0 < q135.
Proof.
  intros V next. subst next. rewrite simulationTick64_eq.
  cbn [fst mq4 mq8 mq135].
  destruct (secondary_mq4 (g 2%nat)) as (q4 & E4 & R4);
    [destruct (V 2%nat) as [[? ?] _]; lra|].
  destruct (secondary_mq8 (g 3%nat)) as (q8 & E8 & R8);
    [destruct (V 3%nat) as [[? ?] _]; lra|].
  destruct (secondary_mq135 (g 4%nat)) as (q135 & E135 & R135);
    [destruct (V 4%nat) as [[? ?] _]; lra|].
  exists q4, q8, q135. rewrite E4, E8, E135.
  rewrite !Math_max_0_pos by lra.
  repeat split; try reflexivity; lra.
Qed.

(** C10, as stated, fails at the upper ends: when every draw is
    [1 - 2^-52] the sums round to 210, 157.5 and 315, so the channels are
    not below these bounds. *)
Lemma C10_upper_ends_reached :
  B64.valid top_draws
  /\ (let next := fst (B64.simulationTick (sensorData initialState) top_draws) in
      exists q4 q8 q135 : Q,
        mq4 next = Fin q4 /\ mq8 next = Fin q8 /\ mq135 next = Fin q135
        /\ q4 == 210 /\ q8 == 157.5 /\ q135 == 315
        /\ ~ q4 < 210 /\ ~ q8 < 157.5 /\ ~ q135 < 315).
Proof.
  split.
  - intros n. unfold top_draws. repeat split; b64_const.
  - eexists _, _, _.
    split; [vm_compute; reflexivity|].
    split; [vm_compute; reflexivity|].
    split; [vm_compute; reflexivity|].
    repeat split; b64_const.
Qed.


Lemma C10_secondary_channels_closed_range_witness :
  B64.valid dyadic_draws
  /\ exists q4 q8 q135 : Q,
      mq4 (fst (B64.simulationTick (sensorData initialState) dyadic_draws)) = Fin q4
      /\ mq8 (fst (B64.simulationTick (sensorData initialState) dyadic_draws)) = Fin q8
      /\ mq135 (fst (B64.simulationTick (sensorData initialState) dyadic_draws)) = Fin q135
      /\ 190 <= q4 <= 210 /\ 142.5 <= q8 <= 157.5 /\ 285 <= q135 <= 315.
Proof.
  split; [exact dyadic_draws_valid|].
  destruct (C10_secondary_channels_closed_range (sensorData initialState)
              dyadic_draws dyadic_draws_valid)
    as (q4 & q8 & q135 & E4 & E8 & E135 & R4 & R8 & R135 & _).
  exists q4, q8, q135. auto 10.
Defined.


(** ** The confidence in binary64 *)



(** Bounds from below through a product, a sum and [Math.min], the
    infinities included: they carry a channel far from the threshold to
    the cap. *)
Lemma mul64_at_least (x : number) (lo k lo' : Q) :
  at_least lo x -> 0 < k -> lo' <= lo * k ->
  B64.representable lo' -> - 2 ^ 1024 < lo' ->
  at_least lo' (x *~ Fin k).
Proof.
  intros H Hk Hl R A. destruct x as [| | |r]; try contradiction.
  - unfold B64.mul. cbn [mul]. unfold inf_times.
    apply Qgt_alt in Hk. rewrite Hk. exact I.
  - cbn in H. apply round64_at_least; [|exact R|exact A].
    apply Qle_trans with (lo * k); [exact Hl|].
    apply Qmult_le_compat_r; [exact H|]. apply Qlt_le_weak. exact Hk.
Qed.

Lemma add64_at_least (x : number) (c lo lo' : Q) :
  at_least lo x -> lo' <= c + lo ->
  B64.representable lo' -> - 2 ^ 1024 < lo' ->
  at_least lo' (Fin c +~ x).
Proof.
  intros H Hl R A. destruct x as [| | |r]; try contradiction.
  - exact I.
  - cbn in H. apply round64_at_least; [lra|exact R|exact A].
Qed.


(** The binary64 numbers nearest to 0.1, 0.05 and 99.9. *)
Local Notation "'K1'" := (7205759403792794 # 72057594037927936).
Local Notation "'K05'" := (7205759403792794 # 144115188075855872).
Local Notation "'K999'" := (7029837543348634 # 70368744177664).








Section Classifier64Facts.

Variable toString_large : Q -> string.

Local Notation "'classify64'" := (B64.getVerdict toString_large).



(** Readings at which the rounding shows: the formula gives 90.005,
    99.895, 99.785 and 85.005 on them. *)
Example confidence_rounding (a b c : number) :
  confidence (classify64 (mkSensorData (B64.lit 299.9) a b c)) = "90.00"
  /\ confidence (classify64 (mkSensorData (B64.lit 102.1) a b c)) = "99.89"
  /\ confidence (classify64 (mkSensorData (B64.lit 447.85) a b c)) = "99.78"
  /\ confidence (classify64 (mkSensorData (B64.lit 300.05) a b c)) = "85.00".
Proof. repeat split; vm_compute; reflexivity. Qed.

End Classifier64Facts.

(** ** A spike and the verdict *)

Section Spike64.

Variable toString_large : Q -> string.

Local Notation "'classify64'" := (B64.getVerdict toString_large).

Lemma status64 (d : SensorData) :
  status (classify64 d) = if (mq3 d > Fin 300)%js then SPOILED else FRESH.
Proof. reflexivity. Qed.

Lemma status64_Fin (q : Q) (a b c : number) :
  status (classify64 (mkSensorData (Fin q) a b c)) = SPOILED <-> 300 < q.
Proof.
  rewrite status64. cbn [mq3]. rewrite <- gt_Fin.
  destruct (Fin q > Fin 300)%js; split; congruence.
Qed.

(** X13: a spike (first draw above 0.85) on a primary channel [p] that is
    a binary64 number: from [p >= 200] the channel becomes the rounded
    [p - 100], between 100 and [p], and the verdict after it is SPOILED
    exactly when [p > 400]; from [0 <= p < 200] it becomes the rounded
    [p + 150], between 150 and 350, and the verdict is SPOILED exactly when
    [p > 150 + 2^-45], the sum [300 + 2^-45] rounding to 300. *)
Theorem spike_then_verdict (p : Q) (a b c : number) (g : RNG) :
  B64.representable p -> B64.representable (g 0%nat) -> 0.85 < g 0%nat ->
  let next := fst (B64.simulationTick (mkSensorData (Fin p) a b c) g) in
  (200 <= p < 2 ^ 1024 ->
   exists q : Q,
     mq3 next = Fin q
     /\ 100 <= q <= p
     /\ (status (classify64 next) = SPOILED <-> 400 < p))
  /\ (0 <= p < 200 ->
      exists q : Q,
        mq3 next = Fin q
        /\ 150 <= q <= 350
        /\ (status (classify64 next) = SPOILED <-> 150 + 2 ^ (-45) < p)).
Proof.
  intros Rp Rg S next. subst next. rewrite simulationTick64_eq.
  cbn [fst mq3 mq4 mq8 mq135].
  apply (spike_threshold _ Rg) in S. rewrite S.
  split.
  - intros [H Hfin].
    assert (L : (Fin p < Fin 200)%js = false) by (apply Qltb_ge; exact H).
    rewrite L.
    destruct (round64_between (p + -100) 100 p 100 p) as [E B];
      [lra|b64_const|apply Qle_lteq; right; exact Rp|b64_const|exact Hfin|].
    change (Fin p +~ Fin (-100)) with (B64.round64 (p + -100)).
    rewrite E, Math_max_0_pos by lra.
    exists (B64.rnd (p + -100)). split; [reflexivity|]. split; [exact B|].
    rewrite status64_Fin. split; intros K.
    + destruct (Qlt_le_dec 400 p) as [G|G]; [exact G|].
      assert (M : p + -100 <= 300) by lra.
      apply rnd_mono in M.
      assert (C : B64.rnd 300 <= 300) by b64_const. lra.
    + pose proof (representable_above p 400 8 (400 * 2 ^ 44) Rp) as G.
      specialize (G ltac:(lia) ltac:(b64_const) ltac:(b64_const) ltac:(b64_const) K).
      set (e := 2 ^ (8 - 52)) in *.
      assert (M : 300 + e <= p + -100) by lra.
      apply rnd_mono in M.
      assert (C : 300 < B64.rnd (300 + e)) by b64_const. lra.
  - intros H.
    assert (L : (Fin p < Fin 200)%js = true) by (apply Qltb_lt; apply H).
    rewrite L.
    destruct (round64_range (p + 150) 150 350) as [E B];
      [lra|b64_const..|].
    change (Fin p +~ Fin 150) with (B64.round64 (p + 150)).
    rewrite E, Math_max_0_pos by lra.
    exists (B64.rnd (p + 150)). split; [reflexivity|]. split; [exact B|].
    rewrite status64_Fin. set (h := 2 ^ (-45)). split; intros K.
    + destruct (Qlt_le_dec (150 + h) p) as [G|G]; [exact G|].
      assert (M : p + 150 <= 300 + h) by lra.
      apply rnd_mono in M.
      assert (C : B64.rnd (300 + h) <= 300) by b64_const. lra.
    + pose proof (representable_above p (150 + h) 7 (150 * 2 ^ 45 + 1) Rp) as G.
      specialize (G ltac:(lia) ltac:(b64_const) ltac:(b64_const) ltac:(b64_const) K).
      change (2 ^ (7 - 52)) with h in G.
      assert (M : 300 + (h + h) <= p + 150) by lra.
      apply rnd_mono in M.
      assert (C : 300 < B64.rnd (300 + (h + h))) by b64_const. lra.
Qed.

End Spike64.

Lemma spike_then_verdict_witness :
  B64.representable 250 /\ B64.representable (dyadic_draws 0%nat)
  /\ 0.85 < dyadic_draws 0%nat
  /\ status (B64.getVerdict (fun _ => "")
               (fst (B64.simulationTick (mkSensorData (Fin 250) (Fin 200) (Fin 150) (Fin 300))
                       dyadic_draws)))
     = FRESH.
Proof.
  assert (Rp : B64.representable 250) by b64_const.
  assert (Rg : B64.representable (dyadic_draws 0%nat)) by b64_const.
  assert (S : 0.85 < dyadic_draws 0%nat) by reflexivity.
  split; [exact Rp|]. split; [exact Rg|]. split; [exact S|].
  destruct (spike_then_verdict (fun _ => "") 250 (Fin 200) (Fin 150) (Fin 300)
              dyadic_draws Rp Rg S) as [A _].
  destruct A as (q & _ & _ & [K _]).
  - split; [lra|reflexivity].
  - destruct (status (B64.getVerdict (fun _ => "")
               (fst (B64.simulationTick (mkSensorData (Fin 250) (Fin 200) (Fin 150) (Fin 300))
                       dyadic_draws)))) eqn:E; [|reflexivity].
    specialize (K eq_refl). lra.
Defined.

(** ** The needle of the gauge *)

(** Bounds from above, the negative infinity included. *)
Lemma round64_at_most (x hi : Q) :
  x <= hi -> B64.representable hi -> hi < 2 ^ 1024 ->
  at_most hi (B64.round64 x).
Proof.
  intros L Rl A. pose proof (rnd_mono _ _ L) as L'.
  unfold B64.representable in Rl. rewrite Rl in L'.
  unfold B64.round64. set (M := 2 ^ 1024) in *.
  destruct (Qle_bool M (B64.rnd x)) eqn:E1.
  { apply Qle_bool_iff in E1. lra. }
  destruct (Qle_bool (B64.rnd x) (- M)) eqn:E2; [exact I|].
  exact L'.
Qed.

Lemma mul64_at_most (x : number) (hi k hi' : Q) :
  at_most hi x -> 0 < k -> hi * k <= hi' ->
  B64.representable hi' -> hi' < 2 ^ 1024 ->
  at_most hi' (x *~ Fin k).
Proof.
  intros H Hk Hl R A. destruct x as [| | |r]; try contradiction.
  - unfold B64.mul. cbn [mul]. unfold inf_times.
    apply Qgt_alt in Hk. rewrite Hk. exact I.
  - cbn in H. apply round64_at_most; [|exact R|exact A].
    apply Qle_trans with (hi * k); [|exact Hl].
    apply Qmult_le_compat_r; [exact H|]. apply Qlt_le_weak. exact Hk.
Qed.

Lemma add64_at_most (x : number) (c hi hi' : Q) :
  at_most hi x -> c + hi <= hi' ->
  B64.representable hi' -> hi' < 2 ^ 1024 ->
  at_most hi' (Fin c +~ x).
Proof.
  intros H Hl R A. destruct x as [| | |r]; try contradiction.
  - exact I.
  - cbn in H. apply round64_at_most; [lra|exact R|exact A].
Qed.

Lemma round64_numeric (x : Q) : is_NaN (B64.round64 x) = false.
Proof.
  unfold B64.round64.
  destruct (Qle_bool (2 ^ 1024) (B64.rnd x)); [reflexivity|].
  destruct (Qle_bool (B64.rnd x) (- 2 ^ 1024)); reflexivity.
Qed.

(** [Math.min(y, 1)] *)
Lemma Math_min_one (y : number) :
  is_NaN y = false ->
  at_most 1 (Math_min y (Fin 1))
  /\ (forall lo, lo <= 1 -> at_least lo y -> at_least lo (Math_min y (Fin 1)))
  /\ (forall hi, at_most hi y -> at_most hi (Math_min y (Fin 1))).
Proof.
  intros N. destruct y as [| | |q]; try discriminate.
  - cbn. split; [lra|]. split; [intros lo H _; exact H|intros hi []].
  - cbn. split; [exact I|]. split; [intros lo _ []|intros hi _; exact I].
  - cbn. destruct (Qltb 1 q) eqn:E.
    + apply Qltb_lt in E. cbn.
      split; [lra|]. split; [intros lo H _; exact H|intros hi H; lra].
    + apply Qltb_ge in E. cbn.
      split; [exact E|]. split; [intros lo _ H; exact H|intros hi H; exact H].
Qed.

Lemma at_most_gt (hi : Q) (x : number) :
  at_most hi x -> (x > Fin hi)%js = false /\ is_NaN x = false.
Proof.
  destruct x as [| | |r]; try contradiction; cbn; intros H.
  - split; reflexivity.
  - split; [apply Qltb_ge; exact H|reflexivity].
Qed.

Lemma at_least_lt (lo : Q) (x : number) :
  at_least lo x -> (x < Fin lo)%js = false.
Proof.
  destruct x as [| | |r]; try contradiction; cbn; intros H.
  - reflexivity.
  - apply Qltb_ge; exact H.
Qed.

Lemma at_least_at_most (k : Q) (x : number) :
  at_least k x -> at_most k x -> same_value x (Fin k).
Proof.
  destruct x as [| | |r]; try contradiction; cbn; intros L H.
  apply Qle_antisym; assumption.
Qed.

Lemma Qdiv_order (v m : Q) :
  0 < m ->
  (0 <= v -> 0 <= v / m) /\ (m <= v -> 1 <= v / m) /\ (v <= - m -> v / m <= -1).
Proof.
  intros H. set (d := v / m).
  assert (E : v == d * m) by (unfold d; field; lra).
  clearbody d.
  assert (P : forall x y : Q, x < y -> x * m < y * m)
    by (intros x y K; apply Qmult_lt_compat_r; assumption).
  repeat split; intros K.
  - destruct (Qlt_le_dec d 0) as [L|L]; [|exact L]. apply P in L. lra.
  - destruct (Qlt_le_dec d 1) as [L|L]; [|exact L]. apply P in L. lra.
  - destruct (Qlt_le_dec (-1) d) as [L|L]; [|exact L]. apply P in L. lra.
Qed.

(** X15: on a finite value and a positive [max] the rotation of the needle
    is a number that is never above 90 degrees; it is exactly 90 for every
    value from [max] on, and not below -90 for a value that is not
    negative; nothing bounds it from below: it is at most -270 for a value
    at or below [-max]. *)
Theorem gauge_rotation (v m : Q) (l : string) :
  0 < m ->
  let r := rotation (B64.GaugeChart (Fin v) (Some (Fin m)) l) in
  (r > Fin 90)%js = false /\ is_NaN r = false
  /\ (m <= v -> same_value r (Fin 90))
  /\ (0 <= v -> (r < Fin (-90))%js = false)
  /\ (v <= - m -> (r > Fin (-270))%js = false).
Proof.
  intros Hm r. subst r. unfold B64.GaugeChart. cbn [rotation].
  unfold B64.div. rewrite (div_Fin_pos v m Hm). cbn [B64.rounded].
  destruct (Qdiv_order v m Hm) as (S0 & S1 & S2).
  destruct (Math_min_one (B64.round64 (v / m)) (round64_numeric _))
    as (P1 & P2 & P3).
  set (pct := Math_min (B64.round64 (v / m)) (Fin 1)) in *.
  assert (U : at_most 90 (Fin (-90) +~ pct *~ Fin 180)).
  { apply add64_at_most with 180; [|lra|b64_const..].
    apply mul64_at_most with 1; [exact P1|lra|lra|b64_const..]. }
  destruct (at_most_gt _ _ U) as [G1 G2].
  split; [exact G1|]. split; [exact G2|].
  split; [|split].
  - intros K. apply at_least_at_most; [|exact U].
    apply add64_at_least with 180; [|lra|b64_const..].
    apply mul64_at_least with 1; [|lra|lra|b64_const..].
    apply P2; [lra|]. apply round64_at_least; [auto|b64_const..].
  - intros K. apply at_least_lt.
    apply add64_at_least with 0; [|lra|b64_const..].
    apply mul64_at_least with 0; [|lra|lra|b64_const..].
    apply P2; [lra|]. apply round64_at_least; [auto|b64_const..].
  - intros K. apply at_most_gt.
    apply add64_at_most with (-180); [|lra|b64_const..].
    apply mul64_at_most with (-1); [|lra|lra|b64_const..].
    apply P3. apply round64_at_most; [auto|b64_const..].
Qed.

(** A value just below zero leaves the needle at -90. *)
Example gauge_small_negative (l : string) :
  exists v : Q,
    B64.lit (- (1 # 10 ^ 30)) = Fin v /\ v < 0
    /\ same_value (rotation (B64.GaugeChart (Fin v) (Some (Fin 600)) l)) (Fin (-90)).
Proof.
  eexists. split; [vm_compute; reflexivity|]. split; b64_const.
Qed.

Lemma gauge_rotation_witness :
  0 < 600
  /\ (rotation (B64.GaugeChart (Fin 450) (Some (Fin 600)) "Konsentrasi Gas")
      > Fin 90)%js = false.
Proof.
  assert (H : 0 < 600) by lra.
  split; [exact H|].
  pose proof (gauge_rotation 450 600 "Konsentrasi Gas" H) as G.
  cbv zeta in G. destruct G as [G _]. exact G.
Defined.

(** ** The randomiser *)

Lemma generateRandomManual64_eq (s : State) (g : RNG) :
  B64.generateRandomManual s g
  = (setManualInput
       {| in_mq3 := Num (Math_floor (Fin (g 0%nat) *~ Fin 500));
          in_mq4 := Num (Math_floor (Fin (g 1%nat) *~ Fin 400));
          in_mq8 := Num (Math_floor (Fin (g 2%nat) *~ Fin 300));
          in_mq135 := Num (Math_floor (Fin (g 3%nat) *~ Fin 600)) |} s,
     fun n => g (4 + n)%nat).
Proof. reflexivity. Qed.

(** [Math.floor(u * m)] on a draw: the product is rounded before the
    floor is taken, and stays below [m]. *)
Lemma floor_draw64 (u : Q) (m : Z) :
  0 <= u < 1 -> B64.representable u -> (0 < m)%Z ->
  B64.rnd ((1 - 2 ^ (-53)) * inject_Z m) < inject_Z m ->
  inject_Z m < 2 ^ 1024 ->
  Math_floor (Fin u *~ Fin (inject_Z m))
  = of_Z (Qfloor (B64.rnd (u * inject_Z m)))
  /\ (0 <= Qfloor (B64.rnd (u * inject_Z m)) < m)%Z.
Proof.
  intros [H0 H1] R Hm Htop Hfin.
  pose proof (representable_below_one u H0 H1 R) as G.
  assert (M : 0 < inject_Z m).
  { change 0 with (inject_Z 0). now rewrite <- Zlt_Qlt. }
  assert (L : 0 <= u * inject_Z m) by (apply Qmult_le_0_compat; lra).
  assert (U : u * inject_Z m <= (1 - 2 ^ (-53)) * inject_Z m)
    by (apply Qmult_le_compat_r; [exact G|lra]).
  destruct (round64_between (u * inject_Z m) 0 ((1 - 2 ^ (-53)) * inject_Z m)
              0 (B64.rnd ((1 - 2 ^ (-53)) * inject_Z m))) as [E B];
    [split; assumption|b64_const|apply Qle_refl|b64_const|lra|].
  change (Fin u *~ Fin (inject_Z m)) with (B64.round64 (u * inject_Z m)).
  rewrite E. split; [reflexivity|].
  split.
  - change 0%Z with (Qfloor 0). apply Qfloor_resp_le. apply B.
  - rewrite Zlt_Qlt.
    apply Qle_lt_trans with (B64.rnd (u * inject_Z m)); [apply Qfloor_le|].
    lra.
Qed.

(** C9: the randomiser puts four integers of [[0, 500)], [[0, 400)],
    [[0, 300)] and [[0, 600)] in the form fields and changes nothing else:
    the reading, the history, the connection flag, the data source, the
    port, the model and the table of intervals stay as they were.  With
    the products rounded, the integers are the floors of the rounded
    [u 0 * 500], [u 1 * 400], [u 2 * 300] and [u 3 * 600] of four
    successive draws, and the call replaces the form only. *)
Theorem C9_randomize_fills_form_only (now : string) (rt : Runtime) :
  B64.valid (random rt) ->
  let rt' := step now RandomClick rt in
  let u := random rt in
  let s' := fst (B64.generateRandomManual (state rt) u) in
  (exists n3 n4 n8 n135 : Z,
      manualInput (state rt')
      = {| in_mq3 := Num (of_Z n3); in_mq4 := Num (of_Z n4);
           in_mq8 := Num (of_Z n8); in_mq135 := Num (of_Z n135) |}
      /\ (0 <= n3 < 500)%Z /\ (0 <= n4 < 400)%Z
      /\ (0 <= n8 < 300)%Z /\ (0 <= n135 < 600)%Z)
  /\ sensorData (state rt') = sensorData (state rt)
  /\ dataHistory (state rt') = dataHistory (state rt)
  /\ isConnected (state rt') = isConnected (state rt)
  /\ dataSource (state rt') = dataSource (state rt)
  /\ selectedPort (state rt') = selectedPort (state rt)
  /\ selectedModel (state rt') = selectedModel (state rt)
  /\ intervals rt' = intervals rt /\ interval rt' = interval rt
  /\ (exists m3 m4 m8 m135 : Z,
        s' = setManualInput
               {| in_mq3 := Num (of_Z m3); in_mq4 := Num (of_Z m4);
                  in_mq8 := Num (of_Z m8); in_mq135 := Num (of_Z m135) |}
               (state rt)
        /\ (0 <= m3 < 500)%Z /\ (0 <= m4 < 400)%Z
        /\ (0 <= m8 < 300)%Z /\ (0 <= m135 < 600)%Z
        /\ m3 = Qfloor (B64.rnd (u 0%nat * 500))
        /\ m4 = Qfloor (B64.rnd (u 1%nat * 400))
        /\ m8 = Qfloor (B64.rnd (u 2%nat * 300))
        /\ m135 = Qfloor (B64.rnd (u 3%nat * 600))).
Proof.
  intros V rt' u s'. subst rt' s'. rewrite random_click_state.
  rewrite generateRandomManual_eq, generateRandomManual64_eq.
  cbn [fst state intervals interval].
  pose proof (valid64_valid _ V) as V'.
  split.
  { destruct (floor_draw (u 0%nat) 500 (V' _)) as [E3 R3]; [lia|].
    destruct (floor_draw (u 1%nat) 400 (V' _)) as [E4 R4]; [lia|].
    destruct (floor_draw (u 2%nat) 300 (V' _)) as [E8 R8]; [lia|].
    destruct (floor_draw (u 3%nat) 600 (V' _)) as [E135 R135]; [lia|].
    exists (Qfloor (u 0%nat * 500)), (Qfloor (u 1%nat * 400)),
           (Qfloor (u 2%nat * 300)), (Qfloor (u 3%nat * 600)).
    split; [reflexivity|]. auto. }
  do 8 (split; [reflexivity|]).
  destruct (V 0%nat) as [I0 R0]. destruct (V 1%nat) as [I1 R1].
  destruct (V 2%nat) as [I2 R2]. destruct (V 3%nat) as [I3 R3].
  destruct (floor_draw64 (u 0%nat) 500 I0 R0) as [E3 B3]; [lia|b64_const..|].
  destruct (floor_draw64 (u 1%nat) 400 I1 R1) as [E4 B4]; [lia|b64_const..|].
  destruct (floor_draw64 (u 2%nat) 300 I2 R2) as [E8 B8]; [lia|b64_const..|].
  destruct (floor_draw64 (u 3%nat) 600 I3 R3) as [E135 B135]; [lia|b64_const..|].
  change (inject_Z 500) with 500 in *. change (inject_Z 400) with 400 in *.
  change (inject_Z 300) with 300 in *. change (inject_Z 600) with 600 in *.
  exists (Qfloor (B64.rnd (u 0%nat * 500))), (Qfloor (B64.rnd (u 1%nat * 400))),
         (Qfloor (B64.rnd (u 2%nat * 300))), (Qfloor (B64.rnd (u 3%nat * 600))).
  rewrite E3, E4, E8, E135.
  split; [reflexivity|]. auto 10.
Qed.

Lemma C9_randomize_fills_form_only_witness :
  B64.valid (random (mount dyadic_draws "00.00"))
  /\ sensorData (state (step "00.01" RandomClick (mount dyadic_draws "00.00")))
     = sensorData (state (mount dyadic_draws "00.00"))
  /\ dataHistory (state (step "00.01" RandomClick (mount dyadic_draws "00.00")))
     = dataHistory (state (mount dyadic_draws "00.00")).
Proof.
  split; [exact dyadic_draws_valid|].
  destruct (C9_randomize_fills_form_only "00.01" (mount dyadic_draws "00.00")
              dyadic_draws_valid)
    as (_ & Hs & Hh & _).
  split; [exact Hs|exact Hh].
Defined.

(** Draws at which the rounding of the product shows. *)
Example randomize_rounding :
  exists u v : Q,
    B64.lit 0.7 = Fin u /\ B64.lit 0.018 = Fin v
    /\ Math_floor (Fin u *~ Fin 500) = of_Z 350 /\ Qfloor (u * 500) = 349%Z
    /\ Math_floor (Fin v *~ Fin 500) = of_Z 9 /\ Qfloor (v * 500) = 8%Z.
Proof.
  eexists _, _. split; [vm_compute; reflexivity|].
  split; [vm_compute; reflexivity|]. repeat split; vm_compute; reflexivity.
Qed.
